(** * QuizBot: quiz-text parsing, answer reconciliation, keyword ranking
      and chunk ingestion

    A shallow embedding of the algorithmic parts of the QuizBot sources:

    - [streamlit_simple.py]: [parse_mcq_questions], [parse_tf_questions],
      the correct-answer extraction loop and the scoring block;
    - [nsrag/code_assistant.py]: [find_relevant_files] (and the variant
      inlined in [streamlit_app.py]);
    - [nsrag/populate_code_database.py]: [calculate_chunk_ids] and
      [add_to_chroma].

    Python strings are modelled as [string]; a character is an [ascii],
    read as the code point of the same number (0..255), and the built-in
    string methods below follow CPython's behaviour on those code points.
    Strings with code points above 255 are outside the model; on such
    strings [str.lower] can change the length (U+0130 becomes two code
    points), so no statement below relies on [lower] keeping lengths.
    A Python float is an IEEE 754 binary64 number, a [spec_float] of the
    Standard Library with 53 bits of precision.
    A Python exception is a value of [outcome]. *)

From Stdlib Require Import String Ascii List Arith Lia QArith DecimalNat DecimalString.
From Stdlib Require Import Qpower Qabs Lqa.
From Stdlib Require Floats.SpecFloat.
From stdpp Require Import gmap strings list sorting.
Import ListNotations.

Local Open Scope string_scope.
Local Open Scope list_scope.

(** ** Exceptions *)

Inductive exn : Type :=
| IndexError
| KeyError
| StoreError.

Inductive outcome (A : Type) : Type :=
| Returns (a : A)
| Raises (e : exn).
Arguments Returns {A} a.
Arguments Raises {A} e.

#[global] Instance outcome_ret : MRet outcome := fun A a => Returns a.

#[global] Instance outcome_bind : MBind outcome := fun A B k m =>
  match m with
  | Returns a => k a
  | Raises e => Raises e
  end.

(** [for x in xs: st = body st x], stopping at the first exception. *)
Fixpoint for_each {A S : Type} (body : S -> A -> outcome S) (xs : list A) (st : S)
  : outcome S :=
  match xs with
  | [] => Returns st
  | x :: xs' => st' ← body st x; for_each body xs' st'
  end.

(** ** The Python string built-ins the sources use *)

Module Py.

(** [str.isspace] on one character. *)
Definition isspace (c : ascii) : bool :=
  let n := nat_of_ascii c in
  (((9 <=? n) && (n <=? 13)) || ((28 <=? n) && (n <=? 32))
   || (n =? 133) || (n =? 160))%nat.

(** [str.isdigit] on one character: the decimal digits and the three
    superscript digits of Latin-1. *)
Definition isdigit (c : ascii) : bool :=
  let n := nat_of_ascii c in
  (((48 <=? n) && (n <=? 57)) || (n =? 178) || (n =? 179) || (n =? 185))%nat.

(** [str.lower] on one character. *)
Definition lower_char (c : ascii) : ascii :=
  let n := nat_of_ascii c in
  if (((65 <=? n) && (n <=? 90))
      || ((192 <=? n) && (n <=? 222) && negb (n =? 215)))%nat
  then ascii_of_nat (n + 32) else c.

(** [str.lower]: on the code points 0..255 every character has a
    lower-case form of one character. *)
Fixpoint lower (s : string) : string :=
  match s with
  | EmptyString => EmptyString
  | String c s' => String (lower_char c) (lower s')
  end.

(** Truthiness of a string: [if s]. *)
Definition truthy (s : string) : bool :=
  match s with
  | EmptyString => false
  | String _ _ => true
  end.

Fixpoint lstrip (s : string) : string :=
  match s with
  | EmptyString => EmptyString
  | String c s' => if isspace c then lstrip s' else s
  end.

Fixpoint rstrip (s : string) : string :=
  match s with
  | EmptyString => EmptyString
  | String c s' =>
      let r := rstrip s' in
      if isspace c && negb (truthy r) then EmptyString else String c r
  end.

Definition strip (s : string) : string := lstrip (rstrip s).

(** [s.startswith(p)]. *)
Definition startswith (s p : string) : bool := String.prefix p s.

(** [sub in s]. *)
Fixpoint contains (sub s : string) : bool :=
  String.prefix sub s
  || match s with
     | EmptyString => false
     | String _ s' => contains sub s'
     end.

(** [s[:n]] and [s[n:]]. *)
Fixpoint take (n : nat) (s : string) : string :=
  match n, s with
  | S n', String c s' => String c (take n' s')
  | _, _ => EmptyString
  end.

Fixpoint drop (n : nat) (s : string) : string :=
  match n, s with
  | S n', String _ s' => drop n' s'
  | _, _ => s
  end.

(** [s[i]], which raises [IndexError] out of range; the result is the
    one-character string. *)
Fixpoint getitem (s : string) (i : nat) : outcome string :=
  match s, i with
  | EmptyString, _ => Raises IndexError
  | String c _, O => Returns (String c EmptyString)
  | String _ s', S i' => getitem s' i'
  end.

(** [xs[i]] on a list. *)
Definition list_getitem {A : Type} (xs : list A) (i : nat) : outcome A :=
  match nth_error xs i with
  | Some x => Returns x
  | None => Raises IndexError
  end.

(** [c.isdigit()] for the one-character string that [getitem] returns. *)
Definition str_isdigit (s : string) : bool :=
  match s with
  | EmptyString => false
  | String c r => isdigit c && forallb isdigit (list_ascii_of_string r)
  end.

(** [s.split(sep)] for a non-empty separator: a left-to-right scan that
    cuts at each occurrence of [sep] and resumes after it.  [skip] counts
    the characters of a matched separator still to be passed over; the
    result is the segment being read and the segments after it. *)
Fixpoint split_aux (sep : string) (skip : nat) (s : string) : string * list string :=
  match s with
  | EmptyString => (EmptyString, [])
  | String c s' =>
      match skip with
      | S k => split_aux sep k s'
      | O =>
          if String.prefix sep s
          then (EmptyString,
                let '(seg, rest) := split_aux sep (String.length sep - 1) s' in
                seg :: rest)
          else let '(seg, rest) := split_aux sep 0 s' in (String c seg, rest)
      end
  end.

Definition split (s sep : string) : list string :=
  let '(seg, rest) := split_aux sep 0 s in seg :: rest.

(** [s.split(sep, 1)[-1]]: what follows the first occurrence of [sep],
    or all of [s] when there is none. *)
Fixpoint split1_last_aux (sep : string) (s : string) : option string :=
  match s with
  | EmptyString => None
  | String c s' =>
      if String.prefix sep s then Some (drop (String.length sep) s)
      else split1_last_aux sep s'
  end.

Definition split1_last (s sep : string) : string :=
  match split1_last_aux sep s with
  | Some r => r
  | None => s
  end.

(** [s.split()]: the maximal runs of non-whitespace characters. *)
Fixpoint split_ws_aux (s : string) : string * list string :=
  match s with
  | EmptyString => (EmptyString, [])
  | String c s' =>
      let '(tok, rest) := split_ws_aux s' in
      if isspace c
      then (EmptyString, if truthy tok then tok :: rest else rest)
      else (String c tok, rest)
  end.

Definition split_ws (s : string) : list string :=
  let '(tok, rest) := split_ws_aux s in
  if truthy tok then tok :: rest else rest.

(** [s.count(sub)]: the number of non-overlapping occurrences. *)
Fixpoint count_aux (sub : string) (skip : nat) (s : string) : nat :=
  match s with
  | EmptyString => 0
  | String _ s' =>
      match skip with
      | S k => count_aux sub k s'
      | O =>
          if String.prefix sub s
          then S (count_aux sub (String.length sub - 1) s')
          else count_aux sub 0 s'
      end
  end.

Definition count (s sub : string) : nat :=
  if truthy sub then count_aux sub 0 s else S (String.length s).

(** [s.replace(c, '')] for a one-character [c]. *)
Fixpoint remove_char (c : ascii) (s : string) : string :=
  match s with
  | EmptyString => EmptyString
  | String d s' =>
      if Ascii.eqb c d then remove_char c s' else String d (remove_char c s')
  end.

(** [x in xs] for a list of strings. *)
Definition in_list (x : string) (xs : list string) : bool :=
  existsb (String.eqb x) xs.

End Py.

(** ** The Python float operations the sources use *)

Module PyFloat.
Import SpecFloat.

(** Binary64: 53 bits of precision, exponents below 1024. *)
Definition prec : Z := 53.
Definition emax : Z := 1024.

(** [float(n)]: the conversion of an int, as in [x * 100]. *)
Definition of_int (n : Z) : spec_float := binary_normalize prec emax n 0 false.

(** [x * y] on two floats. *)
Definition mul (x y : spec_float) : spec_float := SFmul prec emax x y.

(** [a / b] on two ints, [a >= 0] and [b > 0]: the quotient of the two
    integers, rounded once to the nearest double, ties to even.  Python
    raises [ZeroDivisionError] when [b] is 0; the divisor is a
    [positive] here. *)
Definition int_truediv (a : nat) (b : positive) : spec_float :=
  match a with
  | 0 => S754_zero false
  | S _ => SFdiv prec emax (S754_finite false (Pos.of_nat a) 0) (S754_finite false b 0)
  end.

Definition is_finite (x : spec_float) : bool :=
  match x with
  | S754_zero _ | S754_finite _ _ _ => true
  | _ => false
  end.

(** The number that a finite float stands for: mantissa times a power
    of 2.  An infinity or a NaN stands for no number. *)
Definition value (x : spec_float) : Q :=
  match x with
  | S754_finite s m e => (inject_Z (if s then Z.neg m else Z.pos m) * 2 ^ e)%Q
  | _ => 0%Q
  end.
End PyFloat.

(** ** streamlit_simple.py: the quiz parsers *)

Record question_rec : Type := mk_question {
  question : string;
  options : list (string * string)
}.

Definition newline : string := String (ascii_of_nat 10) EmptyString.

(** The test shared by both parsers:
    [line.startswith('Question') or (line[0].isdigit() and '.' in line[:3])]. *)
Definition is_question_line (line : string) : outcome bool :=
  if Py.startswith line "Question" then Returns true
  else
    c ← Py.getitem line 0;
    Returns (Py.str_isdigit c && Py.contains "." (Py.take 3 line)).

(** [line.split(':', 1)[-1].strip() if ':' in line else line]. *)
Definition question_text_of (line : string) : string :=
  if Py.contains ":" line then Py.strip (Py.split1_last line ":") else line.

Abbreviation mcq_state := (list question_rec * option question_rec)%type.

(** One iteration of the loop of [parse_mcq_questions]. *)
Definition mcq_step (st : mcq_state) (raw : string) : outcome mcq_state :=
  let '(questions, current_question) := st in
  let line := Py.strip raw in
  if negb (Py.truthy line) then Returns st
  else
    is_q ← is_question_line line;
    if (is_q : bool) then
      let questions' :=
        match current_question with
        | Some q => questions ++ [q]
        | None => questions
        end in
      Returns (questions', Some (mk_question (question_text_of line) []))
    else
      match current_question with
      | None => Returns st
      | Some q =>
          if negb (Py.truthy line) then Returns st
          else
            c0 ← Py.getitem line 0;
            if Py.in_list c0 ["A"; "B"; "C"; "D"] then
              c1 ← Py.getitem line 1;
              if String.eqb c1 ")" || String.eqb c1 "." then
                let option_text := Py.strip (Py.drop 2 line) in
                Returns (questions,
                         Some (mk_question (question q)
                                           (options q ++ [(c0, option_text)])))
              else Returns st
            else Returns st
      end.

Definition parse_mcq_questions (text : string) : outcome (list question_rec) :=
  let lines := Py.split (Py.strip text) newline in
  '(questions, current_question) ← for_each mcq_step lines ([], None);
  match current_question with
  | Some q =>
      if negb (Nat.eqb (List.length (options q)) 0)
      then Returns (questions ++ [q])
      else Returns questions
  | None => Returns questions
  end.

(** One iteration of the loop of [parse_tf_questions]. *)
Definition tf_step (questions : list question_rec) (raw : string)
  : outcome (list question_rec) :=
  let line := Py.strip raw in
  if negb (Py.truthy line) then Returns questions
  else
    is_q ← is_question_line line;
    if (is_q : bool) then
      let question_text := question_text_of line in
      c ← Py.getitem question_text 0;
      let question_text :=
        if Py.str_isdigit c
        then Py.strip (Py.split1_last question_text ".")
        else question_text in
      Returns (questions ++
               [mk_question question_text [("True", "True"); ("False", "False")]])
    else Returns questions.

Definition parse_tf_questions (text : string) : outcome (list question_rec) :=
  let lines := Py.split (Py.strip text) newline in
  for_each tf_step lines [].

Definition lines_of (ls : list string) : string :=
  String.concat newline ls.

(** ** streamlit_simple.py: extraction of the correct answers *)

(** [enumerate(xs)]. *)
Definition enumerate {A : Type} (xs : list A) : list (nat * A) :=
  combine (seq 0 (List.length xs)) xs.

Definition answer_marker : string := "Correct Answer:".

(** The body of the [try] block: the statements that may raise. *)
Definition extract_try (correct_answers : gmap nat string) (idx : nat) (line : string)
  : outcome (gmap nat string) :=
  after ← Py.list_getitem (Py.split line answer_marker) 1;
  first ← Py.list_getitem (Py.split after ",") 0;
  let correct := Py.strip first in
  let correct := Py.strip (Py.remove_char "]" (Py.remove_char "[" correct)) in
  if Py.truthy correct then
    c0 ← Py.getitem correct 0;
    if Py.in_list c0 ["A"; "B"; "C"; "D"; "T"; "F"]
    then Returns (<[idx := c0]> correct_answers)
    else Returns correct_answers
  else Returns correct_answers.

(** One iteration of the extraction loop; [except: pass] leaves the map
    as it was. *)
Definition extract_step (correct_answers : gmap nat string) (entry : nat * string)
  : gmap nat string :=
  let '(idx, line) := entry in
  if Py.contains answer_marker line then
    match extract_try correct_answers idx line with
    | Returns m => m
    | Raises _ => correct_answers
    end
  else correct_answers.

(** The extraction loop, run on the empty [correct_answers] of a quiz
    that has just been submitted. *)
Definition extract_correct_answers (evaluation : string) : gmap nat string :=
  fold_left extract_step (enumerate (Py.split evaluation newline)) ∅.

(** ** streamlit_simple.py: the quiz results block *)

Definition no_answer : string := "No answer".
Definition unknown_answer : string := "?".

(** [user_answers.get(idx, 'No answer')] and [correct_answers.get(idx, '?')]. *)
Definition user_answer_at (user_answers : gmap nat string) (idx : nat) : string :=
  default no_answer (user_answers !! idx).

Definition correct_answer_at (correct_answers : gmap nat string) (idx : nat) : string :=
  default unknown_answer (correct_answers !! idx).

(** [is_correct = user_answer == correct_answer]. *)
Definition is_correct (user_answers correct_answers : gmap nat string) (idx : nat) : bool :=
  String.eqb (user_answer_at user_answers idx) (correct_answer_at correct_answers idx).

Definition results_step (user_answers correct_answers : gmap nat string)
  (correct_count : nat) (entry : nat * question_rec) : nat :=
  let '(idx, _) := entry in
  if is_correct user_answers correct_answers idx
  then correct_count + 1
  else correct_count.

Record score_result : Type := mk_score {
  correct : nat;
  total : nat;
  percentage : Q
}.

(** [percentage = (correct_count / total * 100) if total > 0 else 0]:
    the quotient of the two ints is a float, and so is its product with
    100; [percentage] is the number that this float (or the int 0)
    stands for.  Under the guard the divisor [total] is positive. *)
Definition quiz_results (parsed_questions : list question_rec)
  (user_answers correct_answers : gmap nat string) : score_result :=
  let correct_count :=
    fold_left (results_step user_answers correct_answers)
              (enumerate parsed_questions) 0 in
  let total := List.length parsed_questions in
  let percentage :=
    if (0 <? total)%nat
    then PyFloat.value
           (PyFloat.mul (PyFloat.int_truediv correct_count (Pos.of_nat total))
                        (PyFloat.of_int 100))
    else 0%Q in
  mk_score correct_count total percentage.

(** ** nsrag/code_assistant.py: keyword ranking *)

(** [list.sort(key=..., reverse=True)]: Python's sort is stable, also
    under [reverse=True], so elements with equal keys keep their order.
    It is modelled by an insertion sort into descending key order that
    puts an element before the first one whose key is not greater. *)
Section Sort.
Context {A : Type} (key : A -> nat).

Fixpoint insert_desc (x : A) (l : list A) : list A :=
  match l with
  | [] => [x]
  | y :: l' =>
      if (key x <? key y)%nat then y :: insert_desc x l' else x :: y :: l'
  end.

Fixpoint sort_desc (l : list A) : list A :=
  match l with
  | [] => []
  | x :: l' => insert_desc x (sort_desc l')
  end.

(** Descending order of the keys. *)
Definition desc : relation A := fun a b => key b <= key a.
End Sort.

(** A scored file: [(file_path, content, score)]. *)
Abbreviation scored_file := (string * string * nat)%type.

Definition score_of (e : scored_file) : nat := e.2.

(** The loop over [query_lower.split()] that adds up the occurrence
    counts of the words longer than 3 characters. *)
Definition word_score (query_lower content_lower : string) : nat :=
  fold_left
    (fun score word =>
       if (3 <? String.length word)%nat
       then score + Py.count content_lower word
       else score)
    (Py.split_ws query_lower) 0.

(** [any(part in query_lower for part in file_path.lower().split('/'))]. *)
Definition path_mentioned (query_lower file_path : string) : bool :=
  existsb (fun part => Py.contains part query_lower)
          (Py.split (Py.lower file_path) "/").

(** The score that the loop body of [find_relevant_files] computes for
    one file. *)
Definition file_score (query_lower file_path content : string) : nat :=
  let score := word_score query_lower (Py.lower content) in
  if path_mentioned query_lower file_path then score + 10 else score.

(** The score of the block inlined in streamlit_app.py, which has no
    path bonus. *)
Definition app_file_score (query_lower file_path content : string) : nat :=
  word_score query_lower (Py.lower content).

Section Ranking.
Variable score_fn : string -> string -> string -> nat.

(** One iteration of the loop over [code_files.items()]. *)
Definition score_step (query_lower : string) (scored_files : list scored_file)
  (item : string * string) : list scored_file :=
  let '(file_path, content) := item in
  let score := score_fn query_lower file_path content in
  if (0 <? score)%nat
  then scored_files ++ [(file_path, content, score)]
  else scored_files.

(** Score, keep the positive scores, sort, keep the first [max_files].
    [code_files] is the dictionary in its iteration order. *)
Definition rank_files (query : string) (code_files : list (string * string))
  (max_files : nat) : list scored_file :=
  let query_lower := Py.lower query in
  let scored_files := fold_left (score_step query_lower) code_files [] in
  take max_files (sort_desc score_of scored_files).

(** Every file with its score, in the order of the dictionary. *)
Definition with_score (query_lower : string) (item : string * string) : scored_file :=
  (item.1, item.2, score_fn query_lower item.1 item.2).
End Ranking.

Definition find_relevant_files (query : string) (code_files : list (string * string))
  (max_files : nat) : list scored_file :=
  rank_files file_score query code_files max_files.

(** The Code Assistant block of streamlit_app.py: [scored_files[:3]]. *)
Definition app_relevant_files (query : string) (code_files : list (string * string))
  : list scored_file :=
  rank_files app_file_score query code_files 3.

(** ** nsrag/code_assistant.py: the context of the prompt *)

(** The f-string that renders one relevant file: the path, then the
    first [limit] characters of the content in a code fence, followed by
    three dots when the content is longer. *)
Definition file_block (limit : nat) (e : scored_file) : string :=
  let '(file_path, content, _) := e in
  "File: " +:+ file_path +:+ newline +:+ "```" +:+ newline
  +:+ Py.take limit content
  +:+ (if (limit <? String.length content)%nat then "..." else EmptyString)
  +:+ newline +:+ "```".

(** The blocks joined by an empty line. *)
Definition build_context (limit : nat) (relevant_files : list scored_file) : string :=
  String.concat (newline +:+ newline) (map (file_block limit) relevant_files).

Section Assistant.
(** The language model and the prompt template are external:
    [invoke prompt] is the answer of the model to a prompt, and
    [format_prompt context question] the filled-in template. *)
Variable invoke : string -> string.
Variable format_prompt : string -> string -> string.

(** [ask_about_code], with the files of [load_codebase] as an argument:
    what it returns, and the prompts that it sent to the model.  No
    answer and no prompt when no file is relevant; otherwise the answer
    of the model to the one prompt built from at most 5 files, 2000
    characters each. *)
Definition ask_about_code (question : string) (code_files : list (string * string))
  : option string * list string :=
  let relevant_files := find_relevant_files question code_files 5 in
  match relevant_files with
  | [] => (None, [])
  | _ =>
      let context := build_context 2000 relevant_files in
      let prompt := format_prompt context question in
      let response := invoke prompt in
      (Some response, [prompt])
  end.
End Assistant.

(** ** nsrag/populate_code_database.py: chunk identifiers *)

(** A langchain [Document]: the text and the metadata dictionary. *)
Record document : Type := mk_document {
  page_content : string;
  metadata : gmap string string
}.

(** [chunk.metadata[k] = v]. *)
Definition set_metadata (chunk : document) (k v : string) : document :=
  mk_document (page_content chunk) (<[k := v]> (metadata chunk)).

(** [chunk.metadata[k]], which raises [KeyError] for a missing key. *)
Definition metadata_getitem (chunk : document) (k : string) : outcome string :=
  match metadata chunk !! k with
  | Some v => Returns v
  | None => Raises KeyError
  end.

(** How an f-string renders [chunk.metadata.get("source")]: the value,
    or the text [None] when the key is missing. *)
Definition source_str (chunk : document) : string :=
  match metadata chunk !! "source" with
  | Some s => s
  | None => "None"
  end.

(** [str(n)] for a non-negative integer. *)
Definition str_of_nat (n : nat) : string :=
  NilEmpty.string_of_uint (Nat.to_uint n).

(** The identifier format: [f"code:{source}"] and [f"{current_source}:{index}"]. *)
Definition current_source_of (chunk : document) : string :=
  "code:" +:+ source_str chunk.

Definition chunk_id_of (chunk : document) (index : nat) : string :=
  current_source_of chunk +:+ ":" +:+ str_of_nat index.

Abbreviation ids_state := (option string * nat * list document)%type.

(** One iteration of the loop of [calculate_chunk_ids]; the third
    component collects the chunks already given their identifier.  The
    chunks are distinct objects, as the splitter creates them, so the
    update in place is modelled by building the updated list. *)
Definition chunk_ids_step (st : ids_state) (chunk : document) : ids_state :=
  let '(last_source, current_chunk_index, done) := st in
  let current_source := current_source_of chunk in
  let current_chunk_index :=
    if decide (Some current_source = last_source)
    then current_chunk_index + 1
    else 0 in
  let chunk_id := current_source +:+ ":" +:+ str_of_nat current_chunk_index in
  (Some current_source, current_chunk_index,
   done ++ [set_metadata chunk "id" chunk_id]).

Definition calculate_chunk_ids (chunks : list document) : list document :=
  (fold_left chunk_ids_step chunks (None, 0, [])).2.

(** ** nsrag/populate_code_database.py: batched insertion *)

(** The vector store as the run sees it: the stored [(id, document)]
    entries, the record of the [add_documents] calls made so far (batch
    number and whether the call succeeded) and whether [persist] ran. *)
Record world : Type := mk_world {
  store : list (string * document);
  attempt_log : list (nat * bool);
  persisted : bool
}.

Definition batch_size : nat := 10.
Definition max_retries : nat := 3.

(** [range(0, n, step)]. *)
Definition range_step (n step : nat) : list nat :=
  map (fun j => j * step) (seq 0 ((n + step - 1) / step)).

Section Ingestion.
(** Whether the k-th call of [db.add_documents] in this run succeeds. *)
Variable call_succeeds : nat -> bool.

(** [db.add_documents(batch, ids=batch_ids)]: an external call that
    either stores the batch or raises and stores nothing. *)
Definition add_documents (w : world) (batch_num : nat)
  (batch : list document) (batch_ids : list string) : world * outcome unit :=
  let ok := call_succeeds (List.length (attempt_log w)) in
  let log' := attempt_log w ++ [(batch_num, ok)] in
  if ok
  then (mk_world (store w ++ zip batch_ids batch) log' (persisted w), Returns tt)
  else (mk_world (store w) log' (persisted w), Raises StoreError).

(** [for attempt in range(max_retries)]: leave the loop on success,
    try again after a failure (the [time.sleep] is not modelled), and
    re-raise the failure of the last attempt. *)
Fixpoint insert_with_retry (attempts : list nat) (w : world) (batch_num : nat)
  (batch : list document) (batch_ids : list string) : world * outcome unit :=
  match attempts with
  | [] => (w, Returns tt)
  | attempt :: attempts' =>
      let '(w', r) := add_documents w batch_num batch batch_ids in
      match r with
      | Returns _ => (w', Returns tt)
      | Raises e =>
          if (attempt <? max_retries - 1)%nat
          then insert_with_retry attempts' w' batch_num batch batch_ids
          else (w', Raises e)
      end
  end.

(** One iteration of [for i in range(0, len(new_chunks), batch_size)]. *)
Definition process_batch (new_chunks : list document) (w : world) (i : nat)
  : world * outcome unit :=
  let batch := take batch_size (drop i new_chunks) in
  match mapM (fun chunk => metadata_getitem chunk "id") batch with
  | Raises e => (w, Raises e)
  | Returns batch_ids =>
      let batch_num := i / batch_size + 1 in
      insert_with_retry (seq 0 max_retries) w batch_num batch batch_ids
  end.

Fixpoint process_batches (new_chunks : list document) (starts : list nat)
  (w : world) : world * outcome unit :=
  match starts with
  | [] => (w, Returns tt)
  | i :: starts' =>
      let '(w', r) := process_batch new_chunks w i in
      match r with
      | Returns _ => process_batches new_chunks starts' w'
      | Raises e => (w', Raises e)
      end
  end.

(** [db.delete(ids=code_ids)] for the identifiers of the entries whose
    metadata has [type == "code"]. *)
Definition reset_store (st : list (string * document)) : list (string * document) :=
  let code_ids :=
    map fst (filter (fun e => metadata e.2 !! "type" = Some "code") st) in
  match code_ids with
  | [] => st
  | _ => filter (fun e => e.1 ∉ code_ids) st
  end.

(** The loop that keeps the chunks whose identifier is not stored yet. *)
Definition new_chunk_step (existing_ids : gset string) (new_chunks : list document)
  (chunk : document) : outcome (list document) :=
  chunk_id ← metadata_getitem chunk "id";
  if decide (chunk_id ∉ existing_ids)
  then Returns (new_chunks ++ [chunk])
  else Returns new_chunks.

Definition add_to_chroma (chunks : list document) (reset : bool)
  (db : list (string * document)) : world * outcome unit :=
  let db := if reset then reset_store db else db in
  let w := mk_world db [] false in
  let chunks_with_ids := calculate_chunk_ids chunks in
  let existing_ids : gset string := list_to_set (map fst db) in
  match for_each (new_chunk_step existing_ids) chunks_with_ids [] with
  | Raises e => (w, Raises e)
  | Returns new_chunks =>
      match new_chunks with
      | [] => (w, Returns tt)
      | _ =>
          let starts := range_step (List.length new_chunks) batch_size in
          let '(w', r) := process_batches new_chunks starts w in
          match r with
          | Returns _ => (mk_world (store w') (attempt_log w') true, Returns tt)
          | Raises e => (w', Raises e)
          end
      end
  end.
End Ingestion.

(** A chunk as [load_code_files] and the splitter produce it. *)
Definition code_chunk (src content : string) : document :=
  mk_document content {[ "source" := src; "type" := "code" ]}.

(** ** streamlit_simple.py: the style of an option in the results *)

(** The class chosen in the loop over [q['options']]; [is_correct] is
    the flag computed for the question before the loop. *)
Definition option_style (opt_letter user_answer correct_answer : string) : string :=
  let is_correct := String.eqb user_answer correct_answer in
  let is_user_choice := String.eqb opt_letter user_answer in
  let is_correct_answer := String.eqb opt_letter correct_answer in
  if is_correct_answer then "correct-answer"
  else if is_user_choice && negb is_correct then "wrong-answer"
  else "neutral-option".

(** ** Notions used to state the properties *)

(** The sequential index of the spec: 0 for the first chunk and whenever
    the source differs from that of the chunk just before, one more than
    the index of the chunk just before otherwise. *)
Fixpoint sequential_index (chunks : list document) (i : nat) : nat :=
  match i with
  | 0 => 0
  | S j =>
      if decide (source_str <$> chunks !! S j = source_str <$> chunks !! j)
      then S (sequential_index chunks j)
      else 0
  end.

(** Chunks of one source are contiguous: between two chunks of the same
    source there are only chunks of that source. *)
Definition contiguous_sources (chunks : list document) : Prop :=
  forall i j k ci cj ck,
    i < j < k ->
    chunks !! i = Some ci -> chunks !! j = Some cj -> chunks !! k = Some ck ->
    source_str ci = source_str ck -> source_str cj = source_str ci.

(** The [id] entries of the metadata of a list of chunks. *)
Definition ids_of (chunks : list document) : list (option string) :=
  (fun c => metadata c !! "id") <$> chunks.

Fixpoint has_char (c : ascii) (s : string) : bool :=
  match s with
  | EmptyString => false
  | String d s' => Ascii.eqb c d || has_char c s'
  end.

(** The outcomes of the [add_documents] calls made for batch [b], in
    the order of the calls. *)
Definition attempts_of (b : nat) (log : list (nat * bool)) : list bool :=
  snd <$> filter (fun e => e.1 = b) log.

(** The batch with number [b]: [new_chunks[i:i + batch_size]] for the
    [i] with [i // batch_size + 1 = b]. *)
Definition batch_of (new_chunks : list document) (b : nat) : list document :=
  take batch_size (drop ((b - 1) * batch_size) new_chunks).

(** The identifier read back from the metadata. *)
Definition id_of (chunk : document) : string :=
  default EmptyString (metadata chunk !! "id").

(** What one batch leaves behind: one to three calls, the last of which
    succeeded and stored the batch, or three failed calls and the
    exception. *)
Definition batch_outcome (w : world) (b : nat) (batch : list document)
  (res : world * outcome unit) : Prop :=
  exists bs,
    attempt_log res.1 = attempt_log w ++ (pair b <$> bs)
    /\ persisted res.1 = persisted w
    /\ ((bs ∈ [[true]; [false; true]; [false; false; true]]
         /\ res.2 = Returns tt
         /\ store res.1 = store w ++ zip (id_of <$> batch) batch)
        \/ (bs = [false; false; false]
            /\ res.2 = Raises StoreError
            /\ store res.1 = store w)).

(** What a run over the batches [a + 1 .. a + m] leaves behind. *)
Definition batches_outcome (new_chunks : list document) (a m : nat) (w : world)
  (res : world * outcome unit) : Prop :=
  exists L added,
    attempt_log res.1 = attempt_log w ++ L
    /\ persisted res.1 = persisted w
    /\ store res.1 = store w ++ added
    /\ (forall b, attempts_of b L <> [] -> a < b <= a + m)
    /\ (forall b, attempts_of b L
                  ∈ [[]; [true]; [false; true]; [false; false; true];
                     [false; false; false]])
    /\ (forall b, attempts_of b L = [false; false; false] ->
                  res.2 = Raises StoreError
                  /\ forall b', b < b' -> attempts_of b' L = [])
    /\ (forall b c, true ∈ attempts_of b L -> c ∈ batch_of new_chunks b ->
                    (id_of c, c) ∈ added).

(** ** Inputs of the examples *)

Definition rsa_quiz : string :=
  lines_of ["Question 1: What is RSA?"; "A) Cipher"; "B) Hash"; "C) Protocol"; "D) Key"].

Definition tf_evaluation : string :=
  "Question 1: Correct Answer: [True], Explanation: TLS uses both.".

Definition ranking_files : list (string * string) :=
  [("a.py", "quiz quiz"); ("src/b.py", "x"); ("c.py", "Quiz does")].

Definition three_chunks : list document :=
  [code_chunk "a.py" "x"; code_chunk "a.py" "y"; code_chunk "b.py" "z"].

(** ** Notions used to state further properties *)

(** Whether a raw line, once stripped, passes the question-line test. *)
Definition question_line (raw : string) : bool :=
  match is_question_line (Py.strip raw) with
  | Returns true => true
  | _ => false
  end.

(** The lines that the parsers iterate over. *)
Definition lines_in (text : string) : list string :=
  Py.split (Py.strip text) newline.

(** A question whose texts carry no surrounding whitespace and whose
    option labels are option letters. *)
Definition well_formed_mcq (q : question_rec) : Prop :=
  Py.strip (question q) = question q
  /\ Forall (fun o => o.1 ∈ ["A"; "B"; "C"; "D"] /\ Py.strip o.2 = o.2) (options q).

(** The option pairs that [parse_tf_questions] attaches to a question. *)
Definition tf_options : list (string * string) :=
  [("True", "True"); ("False", "False")].

(** What the current question contributes when a question line closes it. *)
Definition closed_question (current_question : option question_rec) : list question_rec :=
  match current_question with
  | Some q => [q]
  | None => []
  end.

(** The letters that the extraction loop accepts. *)
Definition answer_letters : list string := ["A"; "B"; "C"; "D"; "T"; "F"].

(** The slice [new_chunks[i:i + batch_size]]. *)
Definition batch_at (new_chunks : list document) (i : nat) : list document :=
  take batch_size (drop i new_chunks).

(** A chunk as the store holds it: under its identifier. *)
Definition stored (chunk : document) : string * document := (id_of chunk, chunk).

Definition shifted_evaluation : string :=
  lines_of ["Here are the answers:"; "Question 1: Correct Answer: [B], Explanation: x"].

Definition four_files : list (string * string) :=
  [("a.py", "quiz quiz"); ("b.py", "quiz"); ("c.py", "quiz quiz quiz"); ("d.py", "x")].

(** ** The formats that the prompts ask the model for *)

(** The character that separates lines. *)
Definition newline_char : ascii := ascii_of_nat 10.

(** A line of the evaluation, as the evaluation prompt lays it out:
    what comes before the marker, the asserted answer in brackets, and
    what follows the comma. *)
Definition evaluation_line (e : string * string * string) : string :=
  let '(before, answer, after) := e in
  before +:+ "Correct Answer: [" +:+ answer +:+ "]," +:+ after.

(** The parts of an evaluation line that the extraction can read back:
    no capital C before the marker, an answer that is an option letter
    or one of the words True and False, and no line break. *)
Definition readable_line (e : string * string * string) : Prop :=
  let '(before, answer, after) := e in
  has_char "C" before = false
  /\ answer ∈ ["A"; "B"; "C"; "D"; "True"; "False"]
  /\ has_char newline_char before = false
  /\ has_char newline_char after = false.

(** A quiz as the generation prompt lays it out: a line "Question k:"
    with the text, then one line per option, "A) " with its text. *)
Definition option_line (o : string * string) : string := o.1 +:+ ") " +:+ o.2.

Definition question_head (k : nat) (text : string) : string :=
  "Question " +:+ str_of_nat k +:+ ": " +:+ text.

Definition mcq_lines (k : nat) (q : question_rec) : list string :=
  question_head k (question q) :: (option_line <$> options q).

Fixpoint quiz_lines_from (k : nat) (qs : list question_rec) : list string :=
  match qs with
  | [] => []
  | q :: qs' => mcq_lines k q ++ quiz_lines_from (S k) qs'
  end.

Definition render_mcq (qs : list question_rec) : string :=
  lines_of (quiz_lines_from 1 qs).

(** The same for a true/false quiz: the lines "Question k:" only. *)
Fixpoint tf_lines_from (k : nat) (texts : list string) : list string :=
  match texts with
  | [] => []
  | t :: texts' => question_head k t :: tf_lines_from (S k) texts'
  end.

Definition render_tf (texts : list string) : string :=
  lines_of (tf_lines_from 1 texts).

(** A text that can be laid out on a line: not empty, without
    surrounding whitespace and without a line break. *)
Definition plain_text (t : string) : Prop :=
  Py.truthy t = true /\ Py.strip t = t /\ has_char newline_char t = false.

(** A question that the layout can carry: a plain text and at least one
    option, each with an option letter and a plain text. *)
Definition plain_mcq (q : question_rec) : Prop :=
  plain_text (question q)
  /\ options q <> []
  /\ Forall (fun o => o.1 ∈ ["A"; "B"; "C"; "D"] /\ plain_text o.2) (options q).

(** The state of the loop of [parse_mcq_questions] after whole question
    blocks: each block closes the question before it. *)
Fixpoint after_blocks (st : mcq_state) (qs : list question_rec) : mcq_state :=
  match qs with
  | [] => st
  | q :: qs' => after_blocks (st.1 ++ closed_question st.2, Some q) qs'
  end.

(** ** Notions used to reason about floats *)

(** The number [m * 2^e]. *)
Definition F2Q (m e : Z) : Q := (inject_Z m * 2 ^ e)%Q.

(** The number [v] lies in the interval that the mantissa of [mrs]
    opens at exponent [e], and strictly inside it when the round bit is
    set. *)
Definition located (v : Q) (mrs : SpecFloat.shr_record) (e : Z) : Prop :=
  (0 <= SpecFloat.shr_m mrs)%Z
  /\ (F2Q (SpecFloat.shr_m mrs) e <= v)%Q
  /\ (v < F2Q (SpecFloat.shr_m mrs + 1) e)%Q
  /\ (SpecFloat.shr_r mrs = true -> (F2Q (SpecFloat.shr_m mrs) e < v)%Q).

(** * Properties *)

(** ** The quiz parsers *)

(** C7: on the four-option RSA input, [parse_mcq_questions] returns
    exactly one question, with text "What is RSA?" and the options
    A Cipher, B Hash, C Protocol, D Key in that order. *)
Theorem parse_mcq_rsa_example :
  parse_mcq_questions rsa_quiz
  = Returns [mk_question "What is RSA?"
               [("A", "Cipher"); ("B", "Hash"); ("C", "Protocol"); ("D", "Key")]].
Proof. vm_compute. reflexivity. Qed.

(** C1: a question block without option lines is dropped when the end
    of the input closes it, but it is kept, with an empty option list,
    when the next question line closes it: the first branch tests only
    [current_question], the last one also [current_question['options']]. *)
Theorem parse_mcq_optionless_question :
  parse_mcq_questions (lines_of ["Question 1: a"]) = Returns []
  /\ parse_mcq_questions (lines_of ["Question 1: a"; "Question 2: b"; "A) x"])
     = Returns [mk_question "a" []; mk_question "b" [("A", "x")]].
Proof. split; vm_compute; reflexivity. Qed.

(** C2: both parsers raise [IndexError] on short lines: [line[1]] on a
    one-character line that starts with an option letter, and
    [question_text[0]] on a question line with nothing after its colon. *)
Theorem parsers_raise_on_short_lines :
  parse_mcq_questions (lines_of ["Question 1: x"; "A"]) = Raises IndexError
  /\ parse_tf_questions (lines_of ["Question 1:"]) = Raises IndexError.
Proof. split; vm_compute; reflexivity. Qed.

(** ** Float arithmetic *)

Section FloatFacts.
Import SpecFloat.
Local Open Scope Z_scope.

Lemma pow2_pos (e : Z) : (0 < 2 ^ e)%Q.
Proof. apply Qpower_0_lt. reflexivity. Qed.

Lemma pow2_succ (e : Z) : (2 ^ (e + 1) == 2 * 2 ^ e)%Q.
Proof. rewrite Qpower_plus by discriminate. rewrite Qpower_1_r. ring. Qed.

Lemma pow2_le (a b : Z) : a <= b -> (2 ^ a <= 2 ^ b)%Q.
Proof. intros H. apply Qpower_le_compat_l; [exact H|]. discriminate. Qed.

Lemma F2Q_le (m n e : Z) : m <= n -> (F2Q m e <= F2Q n e)%Q.
Proof.
  intros H. unfold F2Q. apply Qmult_le_compat_r.
  - rewrite <- Zle_Qle. exact H.
  - apply Qlt_le_weak, pow2_pos.
Qed.

Lemma F2Q_lt (m n e : Z) : m < n -> (F2Q m e < F2Q n e)%Q.
Proof.
  intros H. unfold F2Q. apply Qmult_lt_compat_r; [apply pow2_pos|].
  rewrite <- Zlt_Qlt. exact H.
Qed.

Lemma F2Q_lt_inv (m n e : Z) : (F2Q m e < F2Q n e)%Q -> m < n.
Proof.
  intros H. destruct (Z.lt_ge_cases m n) as [Hlt|Hge]; [exact Hlt|].
  apply (F2Q_le n m e) in Hge. lra.
Qed.

Lemma F2Q_double (m e : Z) : (F2Q (2 * m) e == F2Q m (e + 1))%Q.
Proof. unfold F2Q. rewrite pow2_succ, inject_Z_mult. ring. Qed.

Lemma F2Q_succ (m e : Z) : (F2Q (m + 1) e == F2Q m e + 2 ^ e)%Q.
Proof. unfold F2Q. rewrite inject_Z_plus. ring. Qed.

Lemma F2Q_shift (m e k : Z) : 0 <= k -> (F2Q (m * 2 ^ k) e == F2Q m (e + k))%Q.
Proof.
  intros Hk. unfold F2Q. rewrite inject_Z_mult, Zpower_Qpower by exact Hk.
  rewrite Qpower_plus by discriminate. change (inject_Z 2) with 2%Q. ring.
Qed.

(** *** Shifting a mantissa to the right *)

(** One shift to the right keeps the number located: the mantissa is
    halved and the exponent grows by one. *)
Lemma located_shr_1 (v : Q) (mrs : shr_record) (e : Z) :
  located v mrs e -> located v (shr_1 mrs) (e + 1).
Proof.
  destruct mrs as [m r s]. unfold located. cbn [shr_m shr_r].
  intros (Hm & Hle & Hlt & _).
  assert (Hcases : exists (m' : Z) (b : bool), m = 2 * m' + (if b then 1 else 0) /\ 0 <= m'
                                /\ shr_m (shr_1 (Build_shr_record m r s)) = m'
                                /\ shr_r (shr_1 (Build_shr_record m r s)) = b).
  { destruct m as [|[p|p|]|p]; try lia.
    - exists 0, false. repeat split; lia.
    - exists (Z.pos p), true. repeat split; lia.
    - exists (Z.pos p), false. repeat split; lia.
    - exists 0, true. repeat split; lia. }
  destruct Hcases as (m' & b & -> & Hm' & -> & ->).
  pose proof (F2Q_double m' e) as Hd. pose proof (F2Q_double (m' + 1) e) as Hd1.
  pose proof (pow2_pos e) as Hp.
  split; [exact Hm'|].
  destruct b.
  - pose proof (F2Q_lt (2 * m') (2 * m' + 1) e ltac:(lia)).
    pose proof (F2Q_le (2 * m' + 1 + 1) (2 * (m' + 1)) e ltac:(lia)).
    repeat split; try lra. 
  - pose proof (F2Q_le (2 * m') (2 * m' + 0) e ltac:(lia)).
    pose proof (F2Q_le (2 * m' + 0 + 1) (2 * (m' + 1)) e ltac:(lia)).
    repeat split; try lra; discriminate.
Qed.

Lemma located_iter (v : Q) (p : positive) :
  forall mrs e, located v mrs e -> located v (iter_pos shr_1 p mrs) (e + Z.pos p).
Proof.
  induction p as [p IH|p IH|]; intros mrs e H; cbn [iter_pos].
  - replace (e + Z.pos p~1) with (e + 1 + Z.pos p + Z.pos p) by lia.
    apply IH, IH, located_shr_1, H.
  - replace (e + Z.pos p~0) with (e + Z.pos p + Z.pos p) by lia.
    apply IH, IH, H.
  - apply located_shr_1, H.
Qed.

Lemma located_shr (v : Q) (mrs : shr_record) (e n : Z) :
  located v mrs e ->
  located v (shr mrs e n).1 (shr mrs e n).2 /\ (shr mrs e n).2 = Z.max e (e + n).
Proof.
  intros H. destruct n as [|p|p]; cbn [shr fst snd].
  - split; [exact H|lia].
  - split; [apply located_iter, H|lia].
  - split; [exact H|lia].
Qed.

(** *** The number of binary digits *)

Lemma digits2_pos_lower (p : positive) : 2 ^ (Z.pos (digits2_pos p) - 1) <= Z.pos p.
Proof.
  induction p as [p IH|p IH|]; cbn [digits2_pos]; [| |simpl; lia];
    rewrite Pos2Z.inj_succ;
    replace (Z.succ (Z.pos (digits2_pos p)) - 1) with (Z.succ (Z.pos (digits2_pos p) - 1))
      by lia;
    rewrite Z.pow_succ_r by lia; lia.
Qed.

Lemma digits_bound (m e K : Z) :
  0 < m -> (F2Q m e < 2 ^ K)%Q -> Zdigits2 m + e <= K.
Proof.
  intros Hm H. destruct m as [|p|p]; try lia. cbn [Zdigits2].
  pose proof (digits2_pos_lower p) as Hd.
  apply (F2Q_le _ _ e) in Hd.
  pose proof (F2Q_shift 1 e (Z.pos (digits2_pos p) - 1) ltac:(lia)) as Hsh.
  rewrite Z.mul_1_l in Hsh.
  assert (Hone : (F2Q 1 (e + (Z.pos (digits2_pos p) - 1))
                  == 2 ^ (e + (Z.pos (digits2_pos p) - 1)))%Q)
    by (unfold F2Q; ring).
  assert (Hlt : (2 ^ (e + (Z.pos (digits2_pos p) - 1)) < 2 ^ K)%Q) by lra.
  apply Qpower_lt_compat_l_inv in Hlt; [lia|reflexivity].
Qed.

Lemma fexp_bound (m e K E : Z) :
  0 <= m -> (F2Q m e < 2 ^ K)%Q -> e <= E -> K - 53 <= E -> -1074 <= E ->
  Z.max e (fexp PyFloat.prec PyFloat.emax (Zdigits2 m + e)) <= E.
Proof.
  intros Hm H He HK HE. unfold fexp, emin, PyFloat.prec, PyFloat.emax.
  destruct (Z.eq_dec m 0) as [->|Hne].
  - cbn [Zdigits2]. lia.
  - pose proof (digits_bound m e K ltac:(lia) H). lia.
Qed.

(** *** Rounding *)

Lemma round_nearest_even_cases (mrs : shr_record) :
  let m1 := round_nearest_even (shr_m mrs) (loc_of_shr_record mrs) in
  m1 = shr_m mrs \/ (m1 = shr_m mrs + 1 /\ shr_r mrs = true).
Proof.
  destruct mrs as [m [] []]; cbn; auto.
  destruct (Z.even m); auto.
Qed.

Lemma located_of_loc (v : Q) (mx ex : Z) (lx : location) :
  0 <= mx -> (F2Q mx ex <= v)%Q -> (v < F2Q (mx + 1) ex)%Q ->
  (lx <> loc_Exact -> (F2Q mx ex < v)%Q) ->
  located v (shr_record_of_loc mx lx) ex.
Proof.
  intros Hm Hle Hlt Hin. unfold located.
  assert (Hm' : shr_m (shr_record_of_loc mx lx) = mx)
    by (destruct lx as [|[]]; reflexivity).
  rewrite Hm'. repeat split; try assumption.
  intros Hr. apply Hin. intros ->. discriminate Hr.
Qed.

(** Rounding to binary64 a number [v] located at mantissa [mx] and
    exponent [ex]: when [v] is at most the integer [b], with [b] below
    2^K, and the exponents in play are at most [E], the result is a
    non-negative finite float, itself at most [b], and less than two
    units of 2^E away from [v]. *)
Lemma binary_round_aux_bound (mx ex : Z) (lx : location) (v : Q) (b K E : Z) :
  0 <= mx -> (F2Q mx ex <= v)%Q -> (v < F2Q (mx + 1) ex)%Q ->
  (lx <> loc_Exact -> (F2Q mx ex < v)%Q) ->
  (v <= inject_Z b)%Q -> (inject_Z b < 2 ^ K)%Q ->
  ex <= E -> K - 53 <= E -> -1074 <= E -> E <= 0 ->
  let x := binary_round_aux PyFloat.prec PyFloat.emax false mx ex lx in
  (x = S754_zero false \/ exists m e, x = S754_finite false m e /\ e <= E)
  /\ (PyFloat.value x <= inject_Z b)%Q
  /\ (PyFloat.value x <= v + 2 ^ E)%Q
  /\ (v - 2 * 2 ^ E < PyFloat.value x)%Q.
Proof.
  intros Hm Hle Hlt Hin Hb HK Hex HKE HE HE0 x. subst x.
  unfold binary_round_aux, shr_fexp.
  pose proof (located_shr v _ ex (fexp PyFloat.prec PyFloat.emax (Zdigits2 mx + ex) - ex)
                (located_of_loc v mx ex lx Hm Hle Hlt Hin)) as [H1 He1].
  destruct (shr (shr_record_of_loc mx lx) ex _) as [mrs1 e1]. cbn [fst snd] in H1, He1.
  assert (He1E : e1 <= E).
  { rewrite He1. replace (ex + (fexp PyFloat.prec PyFloat.emax (Zdigits2 mx + ex) - ex))
      with (fexp PyFloat.prec PyFloat.emax (Zdigits2 mx + ex)) by lia.
    apply (fexp_bound mx ex K E); try assumption. lra. }
  clear He1. destruct H1 as (Hm1 & Hle1 & Hlt1 & Hr1).
  set (m1 := round_nearest_even (shr_m mrs1) (loc_of_shr_record mrs1)).
  pose proof (round_nearest_even_cases mrs1) as Hcases. fold m1 in Hcases. cbv zeta in Hcases.
  pose proof (F2Q_succ (shr_m mrs1) e1) as Hs1.
  pose proof (pow2_le e1 E He1E) as Hp1. pose proof (pow2_pos e1) as Hpp1.
  assert (Hgrid : (inject_Z b == F2Q (b * 2 ^ (- e1)) e1)%Q).
  { rewrite F2Q_shift by lia. replace (e1 + - e1) with 0 by lia.
    unfold F2Q. change (2 ^ 0)%Q with 1%Q. ring. }
  assert (Hm1b : 0 <= m1 /\ shr_m mrs1 <= m1 <= shr_m mrs1 + 1
                 /\ (F2Q m1 e1 <= inject_Z b)%Q).
  { destruct Hcases as [->|[-> Hr]].
    - split; [lia|]. split; [lia|]. lra.
    - split; [lia|]. split; [lia|]. specialize (Hr1 Hr).
      rewrite Hgrid. apply F2Q_le.
      assert (Hlt' : (F2Q (shr_m mrs1) e1 < F2Q (b * 2 ^ (- e1)) e1)%Q) by lra.
      apply F2Q_lt_inv in Hlt'. lia. }
  destruct Hm1b as (Hm1' & Hm1r & Hm1b).
  pose proof (F2Q_le _ _ e1 (proj1 Hm1r)) as Hlo. pose proof (F2Q_le _ _ e1 (proj2 Hm1r)) as Hhi.
  pose proof (located_shr (F2Q m1 e1) _ e1
                (fexp PyFloat.prec PyFloat.emax (Zdigits2 m1 + e1) - e1)
                (located_of_loc (F2Q m1 e1) m1 e1 loc_Exact Hm1' (Qle_refl _)
                   (F2Q_lt m1 (m1 + 1) e1 ltac:(lia)) ltac:(congruence))) as [H2 He2].
  destruct (shr (shr_record_of_loc m1 loc_Exact) e1 _) as [mrs2 e2]. cbn [fst snd] in H2, He2.
  assert (He2E : e2 <= E).
  { rewrite He2. replace (e1 + (fexp PyFloat.prec PyFloat.emax (Zdigits2 m1 + e1) - e1))
      with (fexp PyFloat.prec PyFloat.emax (Zdigits2 m1 + e1)) by lia.
    apply (fexp_bound m1 e1 K E); try assumption. lra. }
  clear He2. destruct H2 as (Hm2 & Hle2 & Hlt2 & _).
  pose proof (F2Q_succ (shr_m mrs2) e2) as Hs2.
  pose proof (pow2_le e2 E He2E) as Hp2.
  assert (Hval : exists x, match shr_m mrs2 with
                           | 0 => S754_zero false
                           | Z.pos m => if e2 <=? PyFloat.emax - PyFloat.prec
                                        then S754_finite false m e2 else S754_infinity false
                           | Z.neg _ => S754_nan
                           end = x
                           /\ (x = S754_zero false
                               \/ exists m e, x = S754_finite false m e /\ e <= E)
                           /\ (PyFloat.value x == F2Q (shr_m mrs2) e2)%Q).
  { destruct (shr_m mrs2) as [|m|m] eqn:Em; [| |lia].
    - eexists. split; [reflexivity|]. split; [left; reflexivity|].
      unfold F2Q. cbn [PyFloat.value]. ring.
    - unfold PyFloat.emax, PyFloat.prec.
      destruct (Z.leb_spec e2 (1024 - 53)); [|lia].
      eexists. split; [reflexivity|]. split; [right; eauto|]. reflexivity. }
  destruct Hval as (x & -> & Hshape & Hv). rewrite Hv.
  split; [exact Hshape|]. repeat split; lra.
Qed.

(** *** Division of two ints *)

Lemma digits2_pos_upper (p : positive) : Z.pos p < 2 ^ Z.pos (digits2_pos p).
Proof.
  induction p as [p IH|p IH|]; cbn [digits2_pos]; [| |simpl; lia];
    rewrite Pos2Z.inj_succ, Z.pow_succ_r by lia; lia.
Qed.

Lemma digits2_pos_le (p q : positive) :
  (p <= q)%positive -> Z.pos (digits2_pos p) <= Z.pos (digits2_pos q).
Proof.
  intros H. pose proof (digits2_pos_lower p) as Hl.
  pose proof (digits2_pos_upper q) as Hu.
  assert (Hlt : 2 ^ (Z.pos (digits2_pos p) - 1) < 2 ^ Z.pos (digits2_pos q)) by lia.
  apply Z.pow_lt_mono_r_iff in Hlt; lia.
Qed.

Lemma div_eucl_div_mod (a b : Z) : Z.div_eucl a b = (a / b, a mod b).
Proof. unfold Z.div, Z.modulo. destruct (Z.div_eucl a b). reflexivity. Qed.

Lemma new_location_exact (nb_steps k : Z) :
  new_location nb_steps k <> loc_Exact -> k <> 0.
Proof.
  intros H ->. apply H. unfold new_location, new_location_even, new_location_odd.
  destruct (Z.even nb_steps); reflexivity.
Qed.

Lemma F2Q_0 (m : Z) : (F2Q m 0 == inject_Z m)%Q.
Proof. unfold F2Q. change (2 ^ 0)%Q with 1%Q. ring. Qed.

(** The quotient that the division of two positive ints hands to the
    rounding: it locates c / t. *)
Lemma SFdiv_core_located (c t : positive) :
  (c <= t)%positive ->
  let '(q, e, l) := SFdiv_core_binary PyFloat.prec PyFloat.emax (Z.pos c) 0 (Z.pos t) 0 in
  let v := (inject_Z (Z.pos c) / inject_Z (Z.pos t))%Q in
  0 <= q /\ e <= -53
  /\ (F2Q q e <= v)%Q /\ (v < F2Q (q + 1) e)%Q
  /\ (l <> loc_Exact -> (F2Q q e < v)%Q).
Proof.
  intros Hct. unfold SFdiv_core_binary. cbv zeta.
  set (e := Z.min _ (0 - 0)).
  assert (He : -1074 <= e <= -53).
  { subst e. unfold fexp, emin, PyFloat.prec, PyFloat.emax. cbn [Zdigits2].
    pose proof (digits2_pos_le c t Hct). lia. }
  clearbody e.
  destruct (0 - 0 - e) as [|s|s] eqn:Es; try lia.
  rewrite Z.shiftl_mul_pow2 by lia. rewrite div_eucl_div_mod.
  set (a := Z.pos c * 2 ^ Z.pos s).
  pose proof (Z.div_mod a (Z.pos t) ltac:(lia)) as Hdm.
  pose proof (Z.mod_pos_bound a (Z.pos t) ltac:(lia)) as Hr.
  assert (Ha : 0 <= a) by (subst a; lia).
  pose proof (Z.div_pos a (Z.pos t) Ha ltac:(lia)) as Hq.
  set (q := a / Z.pos t) in *. set (r := a mod Z.pos t) in *.
  assert (Hc : (inject_Z (Z.pos c) == F2Q a e)%Q).
  { subst a. rewrite F2Q_shift by lia. replace (e + Z.pos s) with 0 by lia.
    symmetry. apply F2Q_0. }
  assert (Hsum : (F2Q a e == inject_Z (Z.pos t) * F2Q q e + F2Q r e)%Q).
  { rewrite Hdm. unfold F2Q. rewrite inject_Z_plus, inject_Z_mult. ring. }
  assert (Ht : (0 < inject_Z (Z.pos t))%Q) by (rewrite <- (Zlt_Qlt 0); lia).
  assert (Hr0 : (0 <= F2Q r e)%Q).
  { pose proof (F2Q_le 0 r e ltac:(lia)) as H0. unfold F2Q at 1 in H0.
    rewrite Qmult_0_l in H0. exact H0. }
  assert (Hr1 : (F2Q r e < inject_Z (Z.pos t) * 2 ^ e)%Q).
  { apply (F2Q_lt r (Z.pos t) e). lia. }
  pose proof (F2Q_succ q e) as Hsq.
  split; [exact Hq|]. split; [lia|]. cbv zeta. split; [|split].
  - apply Qle_shift_div_l; [exact Ht|]. lra.
  - apply Qlt_shift_div_r; [exact Ht|]. rewrite Hsq. 
    rewrite Qmult_plus_distr_l. lra.
  - intros Hl. apply new_location_exact in Hl.
    assert (Hrpos : (0 < F2Q r e)%Q).
    { pose proof (F2Q_lt 0 r e ltac:(lia)) as H0. unfold F2Q at 1 in H0.
      rewrite Qmult_0_l in H0. exact H0. }
    apply Qlt_shift_div_l; [exact Ht|]. lra.
Qed.

(** [c / t] for [c <= t]: a non-negative finite float, at most 1, and
    within 2^-51 of the quotient. *)
Lemma int_truediv_bound (c : nat) (t : positive) :
  (c <= Pos.to_nat t)%nat ->
  let x := PyFloat.int_truediv c t in
  let v := (inject_Z (Z.of_nat c) / inject_Z (Z.pos t))%Q in
  (x = S754_zero false \/ exists m e, x = S754_finite false m e /\ e <= -52)
  /\ (PyFloat.value x <= 1)%Q
  /\ (PyFloat.value x <= v + 2 ^ (-52))%Q
  /\ (v - 2 * 2 ^ (-52) < PyFloat.value x)%Q.
Proof.
  intros Hct x v. subst x v. destruct c as [|c].
  - cbn [PyFloat.int_truediv PyFloat.value]. split; [left; reflexivity|].
    change (inject_Z (Z.of_nat 0)) with 0%Q.
    pose proof (pow2_pos (-52)). unfold Qdiv. rewrite Qmult_0_l.
    repeat split; lra.
  - cbn [PyFloat.int_truediv]. unfold SFdiv. cbn [xorb].
    replace (Z.of_nat (S c)) with (Z.pos (Pos.of_nat (S c))) by lia.
    pose proof (SFdiv_core_located (Pos.of_nat (S c)) t ltac:(lia)) as H.
    destruct (SFdiv_core_binary _ _ _ _ _ _) as [[q e] l].
    cbv zeta in H. destruct H as (Hq & He & Hle & Hlt & Hl).
    apply (binary_round_aux_bound q e l _ 1 1 (-52)); try assumption; try lia.
    + apply Qle_shift_div_r; [rewrite <- (Zlt_Qlt 0); lia|].
      rewrite Qmult_1_l, <- Zle_Qle. lia.
    + reflexivity.
Qed.

Lemma of_int_100 : PyFloat.of_int 100 = S754_finite false 7036874417766400 (-46).
Proof. vm_compute. reflexivity. Qed.

(** [x * 100] for a float [x] between 0 and 1: a finite float between
    0 and 100, within 2^-45 of the product. *)
Lemma mul_100_bound (x : spec_float) :
  (x = S754_zero false \/ exists m e, x = S754_finite false m e /\ e <= 0) ->
  (PyFloat.value x <= 1)%Q ->
  let p := PyFloat.mul x (PyFloat.of_int 100) in
  PyFloat.is_finite p = true
  /\ (0 <= PyFloat.value p)%Q
  /\ (PyFloat.value p <= 100)%Q
  /\ (PyFloat.value p <= 100 * PyFloat.value x + 2 ^ (-46))%Q
  /\ (100 * PyFloat.value x - 2 * 2 ^ (-46) < PyFloat.value p)%Q.
Proof.
  intros Hx Hv p. subst p. rewrite of_int_100. pose proof (pow2_pos (-46)) as Hp.
  destruct Hx as [->|(m & e & -> & He)].
  - unfold PyFloat.mul, SFmul. cbn [xorb PyFloat.value PyFloat.is_finite].
    repeat split; lra.
  - unfold PyFloat.mul, SFmul. cbn [xorb]. cbn [PyFloat.value] in Hv |- *.
    set (M := 7036874417766400%positive).
    assert (Hval : (F2Q (Z.pos (m * M)) (e + -46) == 100 * (inject_Z (Z.pos m) * 2 ^ e))%Q).
    { unfold F2Q. rewrite Pos2Z.inj_mul, inject_Z_mult.
      rewrite Qpower_plus by discriminate.
      assert (HM : (inject_Z (Z.pos M) * 2 ^ (-46) == 100)%Q) by reflexivity.
      rewrite <- HM. ring. }
    pose proof (F2Q_succ (Z.pos (m * M)) (e + -46)) as Hs.
    pose proof (pow2_pos (e + -46)) as Hp'.
    assert (H100 : (100 * (inject_Z (Z.pos m) * 2 ^ e) <= inject_Z 100)%Q)
      by (change (inject_Z 100) with 100%Q; lra).
    assert (H7 : (inject_Z 100 < 2 ^ 7)%Q) by reflexivity.
    destruct (binary_round_aux_bound (Z.pos (m * M)) (e + -46) loc_Exact
                (100 * (inject_Z (Z.pos m) * 2 ^ e))%Q 100 7 (-46))
      as (Hshape & Hb & Hu & Hl);
      [lia|lra|lra|congruence|exact H100|exact H7|lia|lia|lia|lia|].
    set (p := binary_round_aux _ _ _ _ _ _) in *.
    assert (Hfin : PyFloat.is_finite p = true /\ (0 <= PyFloat.value p)%Q).
    { destruct Hshape as [->|(m' & e' & -> & _)];
        cbn [PyFloat.is_finite PyFloat.value]; split; try reflexivity; try lra.
      apply Qmult_le_0_compat; [discriminate|apply Qlt_le_weak, pow2_pos]. }
    destruct Hfin as [Hfin H0]. change (inject_Z 100) with 100%Q in Hb.
    repeat split; assumption.
Qed.

(** A positive int divided by itself is the float 1.0. *)
Lemma SFdiv_same (n : positive) :
  SFdiv PyFloat.prec PyFloat.emax (S754_finite false n 0) (S754_finite false n 0)
  = S754_finite false 4503599627370496 (-52).
Proof.
  unfold SFdiv, SFdiv_core_binary. cbv zeta.
  replace (Zdigits2 (Z.pos n) + 0 - (Zdigits2 (Z.pos n) + 0)) with 0 by lia.
  change (Z.min (fexp PyFloat.prec PyFloat.emax 0) (0 - 0)) with (-53).
  change (0 - 0 - -53) with 53.
  rewrite Z.shiftl_mul_pow2 by lia. rewrite div_eucl_div_mod.
  rewrite Z.mul_comm, Z.div_mul, Z.mod_mul by lia.
  assert (Hl : new_location (Z.pos n) 0 = loc_Exact).
  { unfold new_location, new_location_even, new_location_odd.
    destruct (Z.even (Z.pos n)); reflexivity. }
  rewrite Hl. vm_compute. reflexivity.
Qed.

Lemma int_truediv_same (t : positive) :
  PyFloat.int_truediv (Pos.to_nat t) t = S754_finite false 4503599627370496 (-52).
Proof.
  unfold PyFloat.int_truediv. pose proof (Pos2Nat.is_pos t) as Hpos.
  destruct (Pos.to_nat t) as [|n] eqn:E; [lia|].
  rewrite <- E, Pos2Nat.id. apply SFdiv_same.
Qed.

(** [c / t * 100] for [c <= t]: a finite float between 0 and 100,
    within 2^-43 of 100 * c / t. *)
Lemma float_percentage_bound (c : nat) (t : positive) :
  (c <= Pos.to_nat t)%nat ->
  let p := PyFloat.mul (PyFloat.int_truediv c t) (PyFloat.of_int 100) in
  PyFloat.is_finite p = true
  /\ (0 <= PyFloat.value p)%Q
  /\ (PyFloat.value p <= 100)%Q
  /\ (Qabs (PyFloat.value p - 100 * inject_Z (Z.of_nat c) / inject_Z (Z.pos t))
      < 2 ^ (-43))%Q.
Proof.
  intros Hct p. subst p.
  destruct (int_truediv_bound c t Hct) as (Hshape & H1 & Hu & Hl).
  destruct (mul_100_bound (PyFloat.int_truediv c t)) as (Hfin & H0 & H100 & Hu' & Hl').
  { destruct Hshape as [->|(m & e & -> & He)]; [left; reflexivity|].
    right. exists m, e. split; [reflexivity|lia]. }
  { exact H1. }
  split; [exact Hfin|]. split; [exact H0|]. split; [exact H100|].
  apply Qabs_Qlt_condition.
  set (x := PyFloat.value (PyFloat.int_truediv c t)) in *.
  set (y := PyFloat.value (PyFloat.mul (PyFloat.int_truediv c t) (PyFloat.of_int 100))) in *.
  assert (Hv : (100 * inject_Z (Z.of_nat c) / inject_Z (Z.pos t)
                == 100 * (inject_Z (Z.of_nat c) / inject_Z (Z.pos t)))%Q)
    by (unfold Qdiv; ring).
  rewrite Hv. set (v := (inject_Z (Z.of_nat c) / inject_Z (Z.pos t))%Q) in *.
  assert (E52 : (2 ^ (-52) == 1 # 4503599627370496)%Q) by reflexivity.
  assert (E46 : (2 ^ (-46) == 1 # 70368744177664)%Q) by reflexivity.
  assert (E43 : (2 ^ (-43) == 1 # 8796093022208)%Q) by reflexivity.
  rewrite E52 in Hu, Hl. rewrite E46 in Hu', Hl'. rewrite E43.
  split; lra.
Qed.
End FloatFacts.

(** ** Answer extraction and scoring *)

(** C3: for an evaluation line that asserts [True], the extraction
    records the single letter T, while [parse_tf_questions] labels the
    options True and False; the user answer True is then not counted
    correct. *)
Theorem tf_label_mismatch :
  extract_correct_answers tf_evaluation !! 0 = Some "T"
  /\ (exists q, parse_tf_questions "Question 1: TLS uses symmetric keys." = Returns [q]
               /\ options q = [("True", "True"); ("False", "False")]
               /\ correct (quiz_results [q] {[ 0 := "True" ]}
                             (extract_correct_answers tf_evaluation)) = 0).
Proof.
  split; [vm_compute; reflexivity|].
  eexists; split; [vm_compute; reflexivity|].
  split; vm_compute; reflexivity.
Qed.

Lemma results_fold (ua ca : gmap nat string) (qs : list question_rec) :
  forall start acc,
    fold_left (results_step ua ca) (combine (seq start (List.length qs)) qs) acc
    = acc + List.length (filter (fun i => is_correct ua ca i = true)
                                (seq start (List.length qs))).
Proof.
  induction qs as [|q qs IH]; intros start acc; simpl.
  - lia.
  - rewrite IH. rewrite filter_cons.
    destruct (is_correct ua ca start) eqn:E.
    + rewrite decide_True by done. simpl. lia.
    + rewrite decide_False by done. lia.
Qed.

Lemma is_correct_spec (ua ca : gmap nat string) (i : nat) :
  is_correct ua ca i = true <-> user_answer_at ua i = correct_answer_at ca i.
Proof. unfold is_correct. apply String.eqb_eq. Qed.

Lemma correct_le_total (qs : list question_rec) (ua ca : gmap nat string) :
  correct (quiz_results qs ua ca) <= total (quiz_results qs ua ca).
Proof.
  unfold quiz_results, enumerate. cbn [correct total]. rewrite results_fold.
  rewrite Nat.add_0_l. etransitivity; [apply length_filter|].
  rewrite length_seq. reflexivity.
Qed.

(** C6, as the spec states it: the percentage would be exactly
    100 * correct / total.  One correct answer out of three refutes it:
    the quotient 1/3 and then its product with 100 are rounded to
    binary64, which gives 33.33333333333333 and not 100/3. *)
Lemma percentage_not_exact :
  ~ (forall (qs : list question_rec) (ua ca : gmap nat string),
        let r := quiz_results qs ua ca in
        (percentage r ==
         if (total r =? 0)%nat then 0
         else 100 * inject_Z (Z.of_nat (correct r)) / inject_Z (Z.of_nat (total r)))%Q).
Proof.
  intros H.
  specialize (H [mk_question "a" []; mk_question "b" []; mk_question "c" []]
                {[ 0 := "A" ]} {[ 0 := "A" ]}).
  vm_compute in H. discriminate H.
Qed.

(** C6, amended: question [i] is counted correct iff the user answer at
    [i] (default "No answer") equals the correct answer at [i] (default
    "?"); the correct count is the number of such positions and the
    total is the number of questions; the percentage is 0 when there is
    no question, and otherwise the number of the finite double that
    [correct / total * 100] evaluates to, which differs from
    100 * correct / total by less than 2^-43; on two questions with
    answers {0:A} against {0:A, 1:B} the result is 1 of 2, exactly 50
    percent, and on three questions with one correct answer it is the
    double 33.33333333333333. *)
Theorem quiz_results_spec :
  (forall (qs : list question_rec) (ua ca : gmap nat string),
      let r := quiz_results qs ua ca in
      (forall i, is_correct ua ca i = true
                 <-> default "No answer" (ua !! i) = default "?" (ca !! i))
      /\ total r = List.length qs
      /\ correct r
         = List.length
             (filter (fun i => default "No answer" (ua !! i) = default "?" (ca !! i))
                     (seq 0 (List.length qs)))
      /\ (total r = 0 -> percentage r = 0%Q)
      /\ (0 < total r ->
          let p := PyFloat.mul (PyFloat.int_truediv (correct r) (Pos.of_nat (total r)))
                               (PyFloat.of_int 100) in
          percentage r = PyFloat.value p
          /\ PyFloat.is_finite p = true
          /\ (Qabs (percentage r
                    - 100 * inject_Z (Z.of_nat (correct r)) / inject_Z (Z.of_nat (total r)))
              < 2 ^ (-43))%Q))
  /\ (forall q0 q1 : question_rec,
        let r := quiz_results [q0; q1] {[ 0 := "A" ]} {[ 0 := "A"; 1 := "B" ]} in
        correct r = 1 /\ total r = 2 /\ (percentage r == 50)%Q)
  /\ (forall q0 q1 q2 : question_rec,
        let r := quiz_results [q0; q1; q2] {[ 0 := "A" ]} {[ 0 := "A" ]} in
        correct r = 1 /\ total r = 3
        /\ (percentage r == 2345624805922133 # 70368744177664)%Q).
Proof.
  split; [|split].
  - intros qs ua ca r. split; [intros i; apply is_correct_spec|].
    split; [reflexivity|]. split; [|split].
    + subst r. unfold quiz_results, enumerate. cbn [correct].
      rewrite results_fold, Nat.add_0_l.
      f_equal. apply list_filter_iff. intros i. apply is_correct_spec.
    + subst r. unfold quiz_results. cbn [total percentage]. intros ->. reflexivity.
    + pose proof (correct_le_total qs ua ca) as Hle. fold r in Hle.
      intros Hpos p. subst p.
      assert (Hp : percentage r
                   = PyFloat.value
                       (PyFloat.mul
                          (PyFloat.int_truediv (correct r) (Pos.of_nat (total r)))
                          (PyFloat.of_int 100))).
      { subst r. unfold quiz_results in *. cbn [correct total percentage] in *.
        destruct (Nat.ltb_spec 0 (List.length qs)); [reflexivity|lia]. }
      split; [exact Hp|]. rewrite Hp.
      destruct (float_percentage_bound (correct r) (Pos.of_nat (total r)))
        as (Hfin & _ & _ & Habs); [lia|].
      split; [exact Hfin|].
      replace (Z.of_nat (total r)) with (Z.pos (Pos.of_nat (total r))) by lia.
      exact Habs.
  - intros q0 q1 r. subst r. repeat split.
  - intros q0 q1 q2 r. subst r. repeat split.
Qed.

(** ** Keyword scoring *)

Lemma word_score_short (words : list string) (content_lower : string) :
  Forall (fun w => String.length w <= 3) words ->
  forall acc,
    fold_left
      (fun score word =>
         if (3 <? String.length word)%nat
         then score + Py.count content_lower word
         else score)
      words acc = acc.
Proof.
  induction 1 as [|w ws Hw _ IH]; intros acc; simpl; [reflexivity|].
  destruct (Nat.ltb_spec 3 (String.length w)); [lia|]. apply IH.
Qed.

Lemma word_score_short_query (query_lower content_lower : string) :
  Forall (fun w => String.length w <= 3) (Py.split_ws query_lower) ->
  word_score query_lower content_lower = 0.
Proof. intros H. unfold word_score. apply word_score_short, H. Qed.

(** C4, as the spec states it: the score of a file would be 0 for every
    query without a word longer than 3 characters.  The query "src" and
    the path "src/App.js" refute it: the path bonus gives 10. *)
Lemma short_query_score_not_zero :
  ~ (forall query file_path content : string,
        Forall (fun w => String.length w <= 3) (Py.split_ws query) ->
        file_score (Py.lower query) file_path content = 0).
Proof.
  intros H. specialize (H "src" "src/App.js" EmptyString).
  assert (Hq : Forall (fun w => String.length w <= 3) (Py.split_ws "src")).
  { vm_compute. repeat constructor. }
  specialize (H Hq). vm_compute in H. discriminate H.
Qed.

(** ** Ranking *)

Section SortFacts.
Context {A : Type} (key : A -> nat).

Lemma insert_desc_perm (x : A) (l : list A) : insert_desc key x l ≡ₚ x :: l.
Proof.
  induction l as [|y l IH]; simpl; [reflexivity|].
  destruct (key x <? key y)%nat; [|reflexivity].
  rewrite IH. apply Permutation_swap.
Qed.

Lemma sort_desc_perm (l : list A) : sort_desc key l ≡ₚ l.
Proof.
  induction l as [|x l IH]; simpl; [reflexivity|].
  rewrite insert_desc_perm, IH. reflexivity.
Qed.

Lemma insert_desc_sorted (x : A) (l : list A) :
  StronglySorted (desc key) l -> StronglySorted (desc key) (insert_desc key x l).
Proof.
  induction l as [|y l IH]; intros Hs; simpl.
  - repeat constructor.
  - apply StronglySorted_inv in Hs as [Hl Hy].
    destruct (Nat.ltb_spec (key x) (key y)) as [Hlt|Hge].
    + constructor; [auto|].
      rewrite insert_desc_perm. constructor; [unfold desc; lia|exact Hy].
    + constructor; [constructor; assumption|].
      constructor; [exact Hge|].
      eapply Forall_impl; [exact Hy|]. unfold desc. intros z Hz. lia.
Qed.

Lemma sort_desc_sorted (l : list A) : StronglySorted (desc key) (sort_desc key l).
Proof.
  induction l as [|x l IH]; simpl; [constructor|].
  apply insert_desc_sorted, IH.
Qed.

(** Stability: the elements of any one key are in their input order. *)
Lemma filter_insert_desc (s : nat) (x : A) (l : list A) :
  filter (fun e => key e = s) (insert_desc key x l)
  = filter (fun e => key e = s) (x :: l).
Proof.
  induction l as [|y l IH]; simpl; [reflexivity|].
  destruct (Nat.ltb_spec (key x) (key y)) as [Hlt|Hge]; [|reflexivity].
  rewrite filter_cons, IH, !filter_cons.
  destruct (decide (key y = s)), (decide (key x = s)); try reflexivity; lia.
Qed.

Lemma filter_sort_desc (s : nat) (l : list A) :
  filter (fun e => key e = s) (sort_desc key l) = filter (fun e => key e = s) l.
Proof.
  induction l as [|x l IH]; simpl; [reflexivity|].
  rewrite filter_insert_desc, !filter_cons, IH. reflexivity.
Qed.
End SortFacts.

Section Order.
Context {A : Type}.

Lemma sublist_filter_mono (P : A -> Prop) `{!forall x, Decision (P x)}
  (l1 l2 : list A) :
  l1 `sublist_of` l2 -> filter P l1 `sublist_of` filter P l2.
Proof.
  induction 1 as [|x l1 l2 _ IH|x l1 l2 _ IH]; [constructor| |].
  - rewrite !filter_cons. destruct (decide (P x)); [constructor|]; exact IH.
  - rewrite filter_cons. destruct (decide (P x)); [constructor|]; exact IH.
Qed.

Lemma sublist_fmap_inv {B : Type} (f : B -> A) (l : list B) :
  forall k : list A,
    k `sublist_of` f <$> l -> exists k', k = f <$> k' /\ k' `sublist_of` l.
Proof.
  induction l as [|x l IH]; intros k Hk; simpl in Hk.
  - apply sublist_nil_r in Hk as ->. exists []. split; [reflexivity|constructor].
  - apply sublist_cons_r in Hk as [Hk|(k0 & -> & Hk)].
    + destruct (IH _ Hk) as (k' & -> & Hk'). exists k'.
      split; [reflexivity|]. constructor. exact Hk'.
    + destruct (IH _ Hk) as (k' & -> & Hk'). exists (x :: k').
      split; [reflexivity|]. constructor. exact Hk'.
Qed.

(** [x] at an earlier position than [y], as a two-element sublist. *)
Lemma pair_sublist_lookup (x y : A) (l : list A) :
  [x; y] `sublist_of` l
  <-> exists i j, i < j /\ l !! i = Some x /\ l !! j = Some y.
Proof.
  split.
  - induction l as [|z l IH]; intros H.
    + apply sublist_nil_r in H. discriminate H.
    + apply sublist_cons_r in H as [H|(k & Hk & H)].
      * destruct (IH H) as (i & j & Hij & Hi & Hj).
        exists (S i), (S j). repeat split; [lia|assumption|assumption].
      * injection Hk as <- <-.
        apply singleton_sublist_l, list_elem_of_lookup in H as [j Hj].
        exists 0, (S j). repeat split; [lia|exact Hj].
  - intros (i & j & Hij & Hi & Hj).
    rewrite <- (take_drop_middle l i x Hi).
    apply sublist_inserts_l. constructor.
    apply singleton_sublist_l, list_elem_of_lookup.
    exists (j - S i). rewrite lookup_drop.
    replace (S i + (j - S i)) with j by lia. exact Hj.
Qed.

Lemma sorted_pair (R : relation A) (x y : A) (l : list A) :
  StronglySorted R l -> [x; y] `sublist_of` l -> R x y.
Proof.
  induction 1 as [|z l Hs IH Hz]; intros H.
  - apply sublist_nil_r in H. discriminate H.
  - apply sublist_cons_r in H as [H|(k & Hk & H)]; [auto|].
    injection Hk as <- <-.
    apply singleton_sublist_l in H.
    rewrite Forall_forall in Hz. apply Hz. exact H.
Qed.
End Order.

Section RankingFacts.
Variable score_fn : string -> string -> string -> nat.

Lemma scored_files_filter (query_lower : string) (code_files : list (string * string)) :
  forall acc,
    fold_left (score_step score_fn query_lower) code_files acc
    = acc ++ filter (fun e => 0 < score_of e) (with_score score_fn query_lower <$> code_files).
Proof.
  induction code_files as [|[p c] files IH]; intros acc; simpl.
  - rewrite app_nil_r. reflexivity.
  - rewrite IH, filter_cons. unfold with_score at 2. unfold score_of at 2. simpl.
    destruct (Nat.ltb_spec 0 (score_fn query_lower p c)) as [Hpos|Hz].
    + rewrite decide_True by exact Hpos. rewrite <- app_assoc. reflexivity.
    + rewrite decide_False by lia. reflexivity.
Qed.

Lemma rank_files_sublist (query : string) (code_files : list (string * string))
  (max_files : nat) (e1 e2 : scored_file) :
  [e1; e2] `sublist_of` rank_files score_fn query code_files max_files ->
  score_of e2 <= score_of e1
  /\ (score_of e1 = score_of e2 -> [e1.1; e2.1] `sublist_of` code_files).
Proof.
  unfold rank_files. rewrite scored_files_filter. simpl.
  set (scored := filter _ _). intros H.
  assert (Hs : [e1; e2] `sublist_of` sort_desc score_of scored).
  { etransitivity; [exact H|apply sublist_take]. }
  split.
  - exact (sorted_pair (desc score_of) e1 e2 _ (sort_desc_sorted score_of scored) Hs).
  - intros Heq.
    apply (sublist_filter_mono (fun e => score_of e = score_of e1)) in Hs.
    rewrite filter_sort_desc in Hs.
    rewrite !filter_cons, filter_nil in Hs.
    rewrite decide_True in Hs by reflexivity.
    rewrite decide_True in Hs by (symmetry; exact Heq).
    assert (Hall : [e1; e2] `sublist_of` with_score score_fn (Py.lower query) <$> code_files).
    { etransitivity; [exact Hs|]. etransitivity; [apply sublist_filter|].
      subst scored. apply sublist_filter. }
    apply sublist_fmap_inv in Hall as (k & Hk & Hsub).
    destruct k as [|[p1 c1] [|[p2 c2] [|? ?]]]; try discriminate Hk.
    injection Hk as -> ->. exact Hsub.
Qed.

Lemma rank_files_elem (query : string) (code_files : list (string * string))
  (max_files : nat) (p c : string) (n : nat) :
  (p, c, n) ∈ rank_files score_fn query code_files max_files ->
  n = score_fn (Py.lower query) p c /\ 0 < n /\ (p, c) ∈ code_files.
Proof.
  unfold rank_files. rewrite scored_files_filter. simpl. intros H.
  eapply elem_of_sublist in H; [|apply sublist_take].
  rewrite sort_desc_perm in H. rename H into Hs.
  apply list_elem_of_filter in Hs as [Hpos Hin].
  apply list_elem_of_fmap in Hin as ([p' c'] & Heq & Hin).
  unfold with_score in Heq. simpl in Heq. injection Heq as -> -> ->.
  split; [reflexivity|]. split; [exact Hpos|exact Hin].
Qed.

Lemma rank_files_stable (query : string) (code_files : list (string * string))
  (max_files i j : nat) (p1 c1 p2 c2 : string) (s1 s2 : nat) :
  i < j ->
  rank_files score_fn query code_files max_files !! i = Some (p1, c1, s1) ->
  rank_files score_fn query code_files max_files !! j = Some (p2, c2, s2) ->
  s1 = score_fn (Py.lower query) p1 c1
  /\ s2 = score_fn (Py.lower query) p2 c2
  /\ s2 <= s1
  /\ (s1 = s2 ->
      exists i' j', i' < j'
                    /\ code_files !! i' = Some (p1, c1)
                    /\ code_files !! j' = Some (p2, c2)).
Proof.
  intros Hij Hi Hj.
  split; [eapply rank_files_elem, list_elem_of_lookup_2, Hi|].
  split; [eapply rank_files_elem, list_elem_of_lookup_2, Hj|].
  assert (H : [(p1, c1, s1); (p2, c2, s2)]
                `sublist_of` rank_files score_fn query code_files max_files).
  { apply pair_sublist_lookup. exists i, j. auto. }
  apply rank_files_sublist in H as [Hle Hst].
  split; [exact Hle|]. intros Heq.
  apply pair_sublist_lookup, Hst, Heq.
Qed.
End RankingFacts.

(** C4, amended: the code tests the length of the words of the
    lower-cased query.  When none of them is longer than 3 characters
    the word counts contribute nothing, so the score of a file is the
    path bonus alone: 10 when a "/"-segment of the lowercased path occurs
    in the lowercased query, and 0 otherwise, and every file that
    [find_relevant_files] returns has score 10; the score of the block in
    streamlit_app.py, which has no bonus, is 0, and that block finds no
    file. *)
Theorem short_query_score (query file_path content : string) :
  Forall (fun w => String.length w <= 3) (Py.split_ws (Py.lower query)) ->
  file_score (Py.lower query) file_path content
  = (if path_mentioned (Py.lower query) file_path then 10 else 0)
  /\ app_file_score (Py.lower query) file_path content = 0
  /\ (forall code_files max_files p c n,
        (p, c, n) ∈ find_relevant_files query code_files max_files -> n = 10)
  /\ (forall code_files, app_relevant_files query code_files = []).
Proof.
  intros H.
  assert (Hfile : forall p c,
             file_score (Py.lower query) p c
             = if path_mentioned (Py.lower query) p then 10 else 0).
  { intros p c. unfold file_score. rewrite (word_score_short_query _ _ H).
    destruct (path_mentioned (Py.lower query) p); reflexivity. }
  assert (Happ : forall p c, app_file_score (Py.lower query) p c = 0).
  { intros p c. unfold app_file_score. apply word_score_short_query, H. }
  split; [apply Hfile|]. split; [apply Happ|]. split.
  - intros code_files max_files p c n Hin.
    apply rank_files_elem in Hin as (-> & Hpos & _).
    rewrite Hfile in *. destruct (path_mentioned (Py.lower query) p); [reflexivity|lia].
  - intros code_files.
    destruct (app_relevant_files query code_files) as [|[[p c] n] l] eqn:E;
      [reflexivity|].
    assert (Hin : (p, c, n) ∈ app_relevant_files query code_files)
      by (rewrite E; left).
    apply rank_files_elem in Hin as (-> & Hpos & _).
    rewrite Happ in Hpos. lia.
Qed.

Lemma short_query_score_witness :
  Forall (fun w => String.length w <= 3) (Py.split_ws (Py.lower "How SRC"))
  /\ file_score (Py.lower "How SRC") "src/App.js" "how src" = 10
  /\ file_score (Py.lower "How SRC") "App.js" "how src" = 0.
Proof.
  assert (H : Forall (fun w => String.length w <= 3) (Py.split_ws (Py.lower "How SRC"))).
  { vm_compute. repeat constructor. }
  split; [exact H|].
  split.
  - exact (proj1 (short_query_score "How SRC" "src/App.js" "how src" H)).
  - exact (proj1 (short_query_score "How SRC" "App.js" "how src" H)).
Defined.

(** C5: the ranked output carries each file with its score, in
    descending order of score, and two files with equal scores appear
    in it in the order they have in the input collection; this holds for
    [find_relevant_files] and for the block inlined in streamlit_app.py. *)
Theorem ranking_stable (query : string) (code_files : list (string * string))
  (max_files : nat) (score : string -> string -> string -> nat)
  (out : list scored_file) (i j : nat) (p1 c1 p2 c2 : string) (s1 s2 : nat) :
  (score = file_score /\ out = find_relevant_files query code_files max_files)
  \/ (score = app_file_score /\ out = app_relevant_files query code_files) ->
  i < j ->
  out !! i = Some (p1, c1, s1) ->
  out !! j = Some (p2, c2, s2) ->
  s1 = score (Py.lower query) p1 c1
  /\ s2 = score (Py.lower query) p2 c2
  /\ s2 <= s1
  /\ (s1 = s2 ->
      exists i' j', i' < j'
                    /\ code_files !! i' = Some (p1, c1)
                    /\ code_files !! j' = Some (p2, c2)).
Proof.
  intros [[-> ->] | [-> ->]]; apply rank_files_stable.
Qed.

Lemma ranking_stable_witness :
  find_relevant_files "How does the QUIZ parse src" ranking_files 5
  = [("src/b.py", "x", 10); ("a.py", "quiz quiz", 2); ("c.py", "Quiz does", 2)]
  /\ exists i' j', i' < j'
                   /\ ranking_files !! i' = Some ("a.py", "quiz quiz")
                   /\ ranking_files !! j' = Some ("c.py", "Quiz does").
Proof.
  split; [vm_compute; reflexivity|].
  refine (proj2 (proj2 (proj2
            (ranking_stable "How does the QUIZ parse src" ranking_files 5 file_score
               (find_relevant_files "How does the QUIZ parse src" ranking_files 5)
               1 2 "a.py" "quiz quiz" "c.py" "Quiz does" 2 2 _ _ _ _))) eq_refl).
  - left. split; reflexivity.
  - lia.
  - vm_compute. reflexivity.
  - vm_compute. reflexivity.
Defined.

(** ** Chunk identifiers *)

Lemma sequential_index_app (l k : list document) (i : nat) :
  i < List.length l -> sequential_index (l ++ k) i = sequential_index l i.
Proof.
  induction i as [|i IH]; intros Hi; simpl; [reflexivity|].
  rewrite !lookup_app_l by lia. rewrite IH by lia. reflexivity.
Qed.

Lemma sequential_index_snoc (l : list document) (c : document) :
  sequential_index (l ++ [c]) (List.length l)
  = if decide (Some (current_source_of c) = current_source_of <$> last l)
    then sequential_index l (List.length l - 1) + 1
    else 0.
Proof.
  destruct l as [|x l0] using rev_ind; [reflexivity|].
  clear IHl0. rewrite last_snoc, length_app. simpl.
  replace (List.length l0 + 1) with (S (List.length l0)) by lia. simpl.
  rewrite lookup_app_r by (rewrite length_app; simpl; lia).
  rewrite length_app. simpl.
  replace (S (List.length l0) - (List.length l0 + 1)) with 0 by lia. simpl.
  rewrite lookup_app_l by (rewrite length_app; simpl; lia).
  rewrite lookup_app_r by lia.
  replace (List.length l0 - List.length l0) with 0 by lia. simpl.
  rewrite sequential_index_app by (rewrite length_app; simpl; lia).
  replace (List.length l0 - 0) with (List.length l0) by lia.
  unfold current_source_of.
  destruct (decide (Some (source_str c) = Some (source_str x))) as [E|E];
    [rewrite decide_True by congruence; lia|].
  rewrite decide_False; [reflexivity|].
  intros H. apply E. injection H as H. f_equal. exact (String.app_inj EmptyString _ _ H).
Qed.

(** The state of the loop of [calculate_chunk_ids] after a list of chunks. *)
Lemma chunk_ids_fold (chunks : list document) :
  fold_left chunk_ids_step chunks (None, 0, [])
  = (current_source_of <$> last chunks,
     sequential_index chunks (List.length chunks - 1),
     imap (fun i c => set_metadata c "id" (chunk_id_of c (sequential_index chunks i)))
          chunks).
Proof.
  induction chunks as [|c l IH] using rev_ind; [reflexivity|].
  rewrite fold_left_app, IH. simpl.
  rewrite last_snoc, length_app. simpl.
  replace (List.length l + 1 - 1) with (List.length l) by lia.
  rewrite sequential_index_snoc, imap_app. simpl.
  rewrite Nat.add_0_r, sequential_index_snoc.
  f_equal. f_equal.
  apply imap_ext. intros i x Hi. simpl.
  rewrite sequential_index_app; [reflexivity|].
  apply lookup_lt_Some in Hi. exact Hi.
Qed.

Lemma calculate_chunk_ids_imap (chunks : list document) :
  calculate_chunk_ids chunks
  = imap (fun i c => set_metadata c "id" (chunk_id_of c (sequential_index chunks i)))
         chunks.
Proof. unfold calculate_chunk_ids. rewrite chunk_ids_fold. reflexivity. Qed.

(** C9: [calculate_chunk_ids] gives the chunk at position [i] the
    identifier "code:" + source + ":" + index, where the index is 0 for
    the first chunk and whenever the source differs from that of the
    chunk just before, and the index of the chunk just before plus 1
    otherwise. *)
Theorem calculate_chunk_ids_spec (chunks : list document) (i : nat) (c : document) :
  chunks !! i = Some c ->
  calculate_chunk_ids chunks !! i
  = Some (set_metadata c "id"
            ("code:" +:+ source_str c +:+ ":" +:+ str_of_nat (sequential_index chunks i)))
  /\ match i with
     | 0 => sequential_index chunks i = 0
     | S j =>
         forall c', chunks !! j = Some c' ->
                    sequential_index chunks i
                    = if decide (source_str c = source_str c')
                      then sequential_index chunks j + 1
                      else 0
     end.
Proof.
  intros Hc. split.
  - rewrite calculate_chunk_ids_imap, list_lookup_imap, Hc. reflexivity.
  - destruct i as [|j]; [reflexivity|]. intros c' Hc'. simpl.
    rewrite Hc, Hc'. simpl.
    destruct (decide (source_str c = source_str c')) as [E|E].
    + rewrite decide_True by congruence. lia.
    + rewrite decide_False by congruence. reflexivity.
Qed.

Lemma calculate_chunk_ids_spec_witness :
  ids_of (calculate_chunk_ids three_chunks)
  = [Some "code:a.py:0"; Some "code:a.py:1"; Some "code:b.py:0"]
  /\ calculate_chunk_ids three_chunks !! 1
     = Some (set_metadata (code_chunk "a.py" "y") "id" "code:a.py:1").
Proof.
  split; [vm_compute; reflexivity|].
  exact (proj1 (calculate_chunk_ids_spec three_chunks 1 (code_chunk "a.py" "y") eq_refl)).
Defined.

Lemma append_nil_l (s : string) : EmptyString +:+ s = s.
Proof. reflexivity. Qed.

Lemma append_cons (c : ascii) (s t : string) : String c s +:+ t = String c (s +:+ t).
Proof. reflexivity. Qed.

Lemma has_char_append (c : ascii) (s t : string) :
  has_char c (s +:+ t) = has_char c s || has_char c t.
Proof.
  induction s as [|d s IH]; [reflexivity|].
  rewrite append_cons. simpl. rewrite IH. apply orb_assoc.
Qed.

(** The text after the last colon determines the split. *)
Lemma append_colon_inj (a b x y : string) :
  has_char ":" x = false -> has_char ":" y = false ->
  a +:+ ":" +:+ x = b +:+ ":" +:+ y -> a = b /\ x = y.
Proof.
  intros Hx Hy. revert b.
  induction a as [|c a IH]; intros [|d b] H;
    repeat (rewrite append_nil_l in H || rewrite append_cons in H).
  - injection H as H. split; [reflexivity|exact H].
  - exfalso. injection H as _ H. subst x.
    rewrite has_char_append in Hx. simpl in Hx.
    rewrite orb_true_r in Hx. discriminate Hx.
  - exfalso. injection H as _ H. subst y.
    rewrite has_char_append in Hy. simpl in Hy.
    rewrite orb_true_r in Hy. discriminate Hy.
  - injection H as H1 H2. subst d.
    destruct (IH b) as [-> ->]; [|split; reflexivity].
    repeat (rewrite append_nil_l || rewrite append_cons). exact H2.
Qed.

Lemma str_of_uint_no_colon (d : Decimal.uint) :
  has_char ":" (NilEmpty.string_of_uint d) = false.
Proof. induction d; simpl; auto. Qed.

Lemma str_of_nat_inj (n m : nat) : str_of_nat n = str_of_nat m -> n = m.
Proof.
  unfold str_of_nat. intros H.
  apply (f_equal NilEmpty.uint_of_string) in H.
  rewrite !NilEmpty.usu in H. injection H as H.
  apply DecimalNat.Unsigned.to_uint_inj, H.
Qed.

Lemma chunk_id_of_inj (c c' : document) (n n' : nat) :
  chunk_id_of c n = chunk_id_of c' n' -> source_str c = source_str c' /\ n = n'.
Proof.
  unfold chunk_id_of, current_source_of. intros H.
  apply append_colon_inj in H as [Hs Hn]; try apply str_of_uint_no_colon.
  split; [exact (String.app_inj "code:" _ _ Hs)|apply str_of_nat_inj, Hn].
Qed.

(** Within a run of one source the index grows with the position. *)
Lemma sequential_index_run (chunks : list document) :
  contiguous_sources chunks ->
  forall d i ci ck,
    chunks !! i = Some ci -> chunks !! (i + d) = Some ck ->
    source_str ci = source_str ck ->
    sequential_index chunks (i + d) = sequential_index chunks i + d.
Proof.
  intros Hc. induction d as [|d IH]; intros i ci ck Hi Hk Hs.
  - rewrite !Nat.add_0_r. reflexivity.
  - replace (i + S d) with (S (i + d)) in * by lia.
    destruct (lookup_lt_is_Some_2 chunks (i + d)) as [cj Hj].
    { apply lookup_lt_Some in Hk. lia. }
    assert (Hsj : source_str cj = source_str ci).
    { destruct d as [|d].
      - rewrite Nat.add_0_r in Hj. congruence.
      - apply (Hc i (i + S d) (S (i + S d)) ci cj ck); auto. lia. }
    simpl. rewrite Hk, Hj. simpl.
    rewrite decide_True by congruence.
    rewrite (IH i ci cj Hi Hj) by congruence. lia.
Qed.

Lemma ids_of_calculate (chunks : list document) :
  ids_of (calculate_chunk_ids chunks)
  = imap (fun i c => Some (chunk_id_of c (sequential_index chunks i))) chunks.
Proof.
  unfold ids_of. rewrite calculate_chunk_ids_imap, fmap_imap.
  apply imap_ext. intros i c _. simpl. apply lookup_insert_eq.
Qed.

Lemma calculate_chunk_ids_NoDup (chunks : list document) :
  contiguous_sources chunks -> NoDup (ids_of (calculate_chunk_ids chunks)).
Proof.
  intros Hc. rewrite ids_of_calculate. apply NoDup_alt.
  assert (Hlt : forall i j x,
             i < j ->
             imap (fun i c => Some (chunk_id_of c (sequential_index chunks i))) chunks
               !! i = Some x ->
             imap (fun i c => Some (chunk_id_of c (sequential_index chunks i))) chunks
               !! j = Some x -> False).
  { intros i j x Hij Hi Hj.
    rewrite list_lookup_imap in Hi, Hj.
    destruct (chunks !! i) as [ci|] eqn:Ei; [|discriminate Hi].
    destruct (chunks !! j) as [cj|] eqn:Ej; [|discriminate Hj].
    simpl in Hi, Hj.
    assert (Hid : chunk_id_of ci (sequential_index chunks i)
                  = chunk_id_of cj (sequential_index chunks j)) by congruence.
    apply chunk_id_of_inj in Hid as [Hs Hn].
    replace j with (i + (j - i)) in Ej, Hn by lia.
    rewrite (sequential_index_run chunks Hc (j - i) i ci cj Ei Ej Hs) in Hn.
    lia. }
  intros i j x Hi Hj.
  destruct (Nat.lt_trichotomy i j) as [H|[H|H]]; [|exact H|].
  - exfalso. exact (Hlt i j x H Hi Hj).
  - exfalso. exact (Hlt j i x H Hj Hi).
Qed.

Lemma calculate_chunk_ids_have_id (chunks : list document) :
  Forall (fun c => is_Some (metadata c !! "id")) (calculate_chunk_ids chunks).
Proof.
  rewrite calculate_chunk_ids_imap. apply Forall_lookup. intros i c Hc.
  rewrite list_lookup_imap in Hc.
  destruct (chunks !! i); [|discriminate Hc]. injection Hc as <-.
  simpl. rewrite lookup_insert_eq. eexists. reflexivity.
Qed.

Lemma new_chunk_step_id (existing_ids : gset string) (acc : list document)
  (c : document) (x : string) :
  metadata c !! "id" = Some x ->
  new_chunk_step existing_ids acc c
  = Returns (if decide (x ∉ existing_ids) then acc ++ [c] else acc).
Proof.
  intros Hx. unfold new_chunk_step, metadata_getitem. rewrite Hx. simpl.
  destruct (decide (x ∉ existing_ids)); reflexivity.
Qed.

(** The loop that selects the new chunks is a filter on the identifier. *)
Lemma new_chunks_filter (existing_ids : gset string) (chunks : list document) :
  Forall (fun c => is_Some (metadata c !! "id")) chunks ->
  forall acc,
    for_each (new_chunk_step existing_ids) chunks acc
    = Returns (acc ++ filter (fun c => metadata c !! "id" ∉ Some <$> elements existing_ids)
                             chunks).
Proof.
  induction 1 as [|c l [x Hx] _ IH]; intros acc; simpl.
  - rewrite app_nil_r. reflexivity.
  - rewrite (new_chunk_step_id _ _ _ _ Hx). simpl.
    rewrite filter_cons, Hx.
    destruct (decide (x ∉ existing_ids)) as [Hn|Hn].
    + rewrite decide_True.
      * simpl. rewrite IH, <- app_assoc. reflexivity.
      * intros Hin. apply Hn. apply list_elem_of_fmap in Hin as (y & Hy & Hin).
        injection Hy as ->. apply elem_of_elements, Hin.
    + rewrite decide_False.
      * simpl. apply IH.
      * intros Hnot. apply Hn. intros Hin. apply Hnot.
        apply list_elem_of_fmap. exists x. split; [reflexivity|].
        apply elem_of_elements, Hin.
Qed.

(** C10: when the chunks of one source are contiguous, the identifiers
    that [calculate_chunk_ids] assigns are pairwise distinct, and so are
    those of the chunks that the new-chunk filter selects, which are a
    subsequence of them: each chunk is added at most once. *)
Theorem chunk_ids_distinct (chunks : list document) (existing_ids : gset string) :
  contiguous_sources chunks ->
  Forall (fun c => is_Some (metadata c !! "id")) (calculate_chunk_ids chunks)
  /\ NoDup (ids_of (calculate_chunk_ids chunks))
  /\ exists new_chunks,
      for_each (new_chunk_step existing_ids) (calculate_chunk_ids chunks) []
      = Returns new_chunks
      /\ new_chunks `sublist_of` calculate_chunk_ids chunks
      /\ NoDup (ids_of new_chunks).
Proof.
  intros Hc. split; [apply calculate_chunk_ids_have_id|].
  pose proof (calculate_chunk_ids_NoDup chunks Hc) as Hnd.
  split; [exact Hnd|].
  eexists. split.
  - apply new_chunks_filter, calculate_chunk_ids_have_id.
  - simpl. split; [apply sublist_filter|].
    eapply sublist_NoDup; [exact Hnd|].
    unfold ids_of. apply fmap_sublist, sublist_filter.
Qed.

Lemma three_chunks_contiguous : contiguous_sources three_chunks.
Proof.
  intros i j k ci cj ck Hijk Hi Hj Hk Hs.
  pose proof (lookup_lt_Some _ _ _ Hk) as Hlen. simpl in Hlen.
  assert (i = 0 /\ j = 1 /\ k = 2) as (-> & -> & ->) by lia.
  injection Hi as <-. injection Hk as <-. vm_compute in Hs. discriminate Hs.
Qed.

Lemma chunk_ids_distinct_witness :
  contiguous_sources three_chunks
  /\ NoDup (ids_of (calculate_chunk_ids three_chunks)).
Proof.
  split; [exact three_chunks_contiguous|].
  exact (proj1 (proj2 (chunk_ids_distinct three_chunks ∅ three_chunks_contiguous))).
Defined.

(** ** Batched insertion with retries *)

(** Membership in a list that is written out, and its refutation. *)
Ltac in_explicit_list := solve [repeat first [left | right]].

Ltac not_in_explicit_list H :=
  rewrite ?elem_of_cons, ?elem_of_nil in H;
  repeat match type of H with
         | _ \/ _ => destruct H as [H|H]
         end;
  solve [discriminate H | contradiction H].

Lemma attempts_of_app (b : nat) (l1 l2 : list (nat * bool)) :
  attempts_of b (l1 ++ l2) = attempts_of b l1 ++ attempts_of b l2.
Proof. unfold attempts_of. rewrite filter_app, fmap_app. reflexivity. Qed.

Lemma attempts_of_segment (x b : nat) (bs : list bool) :
  attempts_of x (pair b <$> bs) = if decide (x = b) then bs else [].
Proof.
  unfold attempts_of. induction bs as [|o bs IH]; simpl.
  - destruct (decide (x = b)); reflexivity.
  - rewrite filter_cons. simpl.
    destruct (decide (x = b)) as [->|Hne].
    + rewrite decide_True by reflexivity. simpl. f_equal. exact IH.
    + rewrite decide_False by congruence. exact IH.
Qed.

Lemma mapM_ids (batch : list document) :
  Forall (fun c => is_Some (metadata c !! "id")) batch ->
  mapM (fun chunk => metadata_getitem chunk "id") batch = Returns (id_of <$> batch).
Proof.
  induction 1 as [|c l [x Hx] _ IH]; [reflexivity|].
  simpl. rewrite IH. unfold metadata_getitem, id_of. rewrite Hx. reflexivity.
Qed.

Lemma zip_ids_elem (batch : list document) (c : document) :
  c ∈ batch -> (id_of c, c) ∈ zip (id_of <$> batch) batch.
Proof.
  induction 1 as [c l|c d l _ IH]; simpl; [left|right; exact IH].
Qed.

Section RetryFacts.
Variable call_succeeds : nat -> bool.

Lemma add_documents_eq (w : world) (b : nat) (batch : list document)
  (ids : list string) :
  add_documents call_succeeds w b batch ids
  = if call_succeeds (List.length (attempt_log w))
    then (mk_world (store w ++ zip ids batch) (attempt_log w ++ [(b, true)])
                   (persisted w), Returns tt)
    else (mk_world (store w) (attempt_log w ++ [(b, false)]) (persisted w),
          Raises StoreError).
Proof.
  unfold add_documents.
  destruct (call_succeeds (List.length (attempt_log w))); reflexivity.
Qed.

Lemma insert_with_retry_outcome (w : world) (b : nat) (batch : list document) :
  batch_outcome w b batch
    (insert_with_retry call_succeeds (seq 0 max_retries) w b batch (id_of <$> batch)).
Proof.
  unfold batch_outcome, max_retries. simpl. rewrite add_documents_eq.
  destruct (call_succeeds (List.length (attempt_log w))); simpl.
  { exists [true]. split; [reflexivity|]. split; [reflexivity|].
    left. split; [in_explicit_list|]. split; reflexivity. }
  rewrite add_documents_eq. simpl.
  destruct (call_succeeds (List.length (attempt_log w ++ [(b, false)]))); simpl.
  { exists [false; true]. rewrite <- app_assoc. split; [reflexivity|].
    split; [reflexivity|]. left. split; [in_explicit_list|]. split; reflexivity. }
  rewrite add_documents_eq. simpl.
  destruct (call_succeeds
              (List.length ((attempt_log w ++ [(b, false)]) ++ [(b, false)])));
    simpl.
  { exists [false; false; true]. rewrite <- !app_assoc. split; [reflexivity|].
    split; [reflexivity|]. left. split; [in_explicit_list|]. split; reflexivity. }
  exists [false; false; false]. rewrite <- !app_assoc. split; [reflexivity|].
  split; [reflexivity|]. right. split; [reflexivity|]. split; reflexivity.
Qed.

Lemma process_batch_outcome (new_chunks : list document) (w : world) (a : nat) :
  Forall (fun c => is_Some (metadata c !! "id")) new_chunks ->
  batch_outcome w (a + 1) (batch_of new_chunks (a + 1))
    (process_batch call_succeeds new_chunks w (a * batch_size)).
Proof.
  intros Hid. unfold process_batch, batch_of.
  replace ((a + 1 - 1) * batch_size) with (a * batch_size) by lia.
  rewrite mapM_ids.
  - replace (a * batch_size / batch_size + 1) with (a + 1).
    + apply insert_with_retry_outcome.
    + unfold batch_size. rewrite Nat.div_mul by lia. reflexivity.
  - apply Forall_take, Forall_drop, Hid.
Qed.

Lemma process_batches_outcome (new_chunks : list document) :
  Forall (fun c => is_Some (metadata c !! "id")) new_chunks ->
  forall m a w,
    batches_outcome new_chunks a m w
      (process_batches call_succeeds new_chunks
         (map (fun j => j * batch_size) (seq a m)) w).
Proof.
  intros Hid. induction m as [|m IH]; intros a w.
  - exists [], []. simpl. rewrite !app_nil_r.
    split; [reflexivity|]. split; [reflexivity|]. split; [reflexivity|].
    split; [|split; [|split]].
    + intros b H. exfalso. apply H. reflexivity.
    + intros b. left.
    + intros b H. discriminate H.
    + intros b c H. inversion H.
  - simpl.
    pose proof (process_batch_outcome new_chunks w a Hid) as Hb.
    destruct (process_batch call_succeeds new_chunks w (a * batch_size)) as [w1 r1].
    destruct Hb as (bs & Hlog & Hper & [(Hbs & Hr & Hst)|(Hbs & Hr & Hst)]);
      simpl in Hlog, Hper, Hr, Hst; subst r1.
    + specialize (IH (S a) w1).
      destruct (process_batches call_succeeds new_chunks
                  (map (fun j => j * batch_size) (seq (S a) m)) w1) as [w2 r2].
      destruct IH as (L & added & HL & HP & HS & Hrange & Hshape & Hfail & Hkept).
      simpl in HL, HP, HS, Hfail.
      assert (Hnone : attempts_of (a + 1) L = []).
      { destruct (attempts_of (a + 1) L) eqn:E; [reflexivity|].
        assert (S a < a + 1 <= S a + m); [|lia].
        apply Hrange. rewrite E. discriminate. }
      exists ((pair (a + 1) <$> bs) ++ L), (zip (id_of <$> batch_of new_chunks (a + 1))
                                            (batch_of new_chunks (a + 1)) ++ added).
      simpl. rewrite HL, Hlog, HP, Hper, HS, Hst, <- !app_assoc.
      split; [reflexivity|]. split; [reflexivity|]. split; [reflexivity|].
      split; [|split; [|split]].
      * intros b. rewrite attempts_of_app, attempts_of_segment.
        destruct (decide (b = a + 1)) as [->|Hne]; [lia|].
        simpl. intros H. apply Hrange in H. lia.
      * intros b. rewrite attempts_of_app, attempts_of_segment.
        destruct (decide (b = a + 1)) as [->|Hne]; [|apply Hshape].
        rewrite Hnone, app_nil_r.
        rewrite !elem_of_cons in Hbs. rewrite !elem_of_cons.
        destruct Hbs as [->|[->|[->|Hbs]]]; [auto..|inversion Hbs].
      * intros b. rewrite attempts_of_app, attempts_of_segment.
        destruct (decide (b = a + 1)) as [->|Hne].
        { rewrite Hnone, app_nil_r. intros ->. exfalso. not_in_explicit_list Hbs. }
        simpl. intros HF. destruct (Hfail b HF) as [Hr2 Hlater].
        split; [exact Hr2|]. intros b' Hlt.
        rewrite attempts_of_app, attempts_of_segment.
        assert (S a < b <= S a + m) by (apply Hrange; rewrite HF; discriminate).
        rewrite decide_False by lia. simpl. apply Hlater, Hlt.
      * intros b c. rewrite attempts_of_app, attempts_of_segment.
        destruct (decide (b = a + 1)) as [->|Hne].
        { intros _ Hc. apply elem_of_app. left. apply zip_ids_elem, Hc. }
        simpl. intros Ht Hc. apply elem_of_app. right. apply (Hkept b c Ht Hc).
    + subst bs. exists (pair (a + 1) <$> [false; false; false]), [].
      cbn [fst snd]. rewrite Hlog, Hper, Hst, app_nil_r.
      split; [reflexivity|]. split; [reflexivity|]. split; [reflexivity|].
      split; [|split; [|split]].
      * intros b. rewrite (attempts_of_segment b (a + 1) [false; false; false]).
        destruct (decide (b = a + 1)) as [->|Hne]; [lia|]. intros H. exfalso. auto.
      * intros b. rewrite (attempts_of_segment b (a + 1) [false; false; false]).
        destruct (decide (b = a + 1)); in_explicit_list.
      * intros b. rewrite (attempts_of_segment b (a + 1) [false; false; false]).
        destruct (decide (b = a + 1)) as [->|Hne]; [|discriminate].
        intros _. split; [reflexivity|]. intros b' Hlt.
        rewrite (attempts_of_segment b' (a + 1) [false; false; false]).
        rewrite decide_False by lia. reflexivity.
      * intros b c. rewrite (attempts_of_segment b (a + 1) [false; false; false]).
        destruct (decide (b = a + 1)); intros Ht; exfalso; not_in_explicit_list Ht.
Qed.
End RetryFacts.

Lemma shape_length (bs : list bool) :
  bs ∈ [[]; [true]; [false; true]; [false; false; true]; [false; false; false]] ->
  List.length bs <= 3.
Proof.
  rewrite !elem_of_cons, elem_of_nil.
  intros [->|[->|[->|[->|[->|[]]]]]]; simpl; lia.
Qed.

Lemma shape_success_last (bs before after : list bool) :
  bs ∈ [[]; [true]; [false; true]; [false; false; true]; [false; false; false]] ->
  bs = before ++ true :: after -> after = [].
Proof.
  rewrite !elem_of_cons, elem_of_nil.
  intros [->|[->|[->|[->|[->|[]]]]]] H;
    destruct before as [|[] [|[] [|[] [|? ?]]]]; simpl in H;
    try discriminate H; injection H; auto.
Qed.

Lemma add_to_chroma_log (call_succeeds : nat -> bool) (chunks : list document)
  (reset : bool) (db : list (string * document)) :
  let db' := if reset then reset_store db else db in
  let res := add_to_chroma call_succeeds chunks reset db in
  exists new_chunks added,
    for_each (new_chunk_step (list_to_set (map fst db'))) (calculate_chunk_ids chunks) []
    = Returns new_chunks
    /\ store res.1 = db' ++ added
    /\ (forall b, attempts_of b (attempt_log res.1)
                  ∈ [[]; [true]; [false; true]; [false; false; true];
                     [false; false; false]])
    /\ (forall b, attempts_of b (attempt_log res.1) = [false; false; false] ->
                  res.2 = Raises StoreError
                  /\ forall b', b < b' -> attempts_of b' (attempt_log res.1) = [])
    /\ (forall b c, true ∈ attempts_of b (attempt_log res.1) ->
                    c ∈ batch_of new_chunks b -> (id_of c, c) ∈ added).
Proof.
  intros db' res. subst res. unfold add_to_chroma. fold db'.
  rewrite (new_chunks_filter _ _ (calculate_chunk_ids_have_id chunks)).
  rewrite app_nil_l.
  set (new_chunks := filter _ (calculate_chunk_ids chunks)).
  assert (Hid : Forall (fun c => is_Some (metadata c !! "id")) new_chunks).
  { apply Forall_forall. intros c Hc.
    apply list_elem_of_filter in Hc as [_ Hc]. revert c Hc.
    apply Forall_forall, calculate_chunk_ids_have_id. }
  exists new_chunks.
  destruct new_chunks as [|c0 rest] eqn:Enew.
  - exists []. simpl. rewrite app_nil_r. split; [reflexivity|]. split; [reflexivity|].
    split; [intros b; left|]. split; [intros b H; discriminate H|].
    intros b c H. inversion H.
  - rewrite <- Enew in *. clear Enew.
    unfold range_step.
    pose proof (process_batches_outcome call_succeeds new_chunks Hid
                  ((List.length new_chunks + batch_size - 1) / batch_size) 0
                  (mk_world db' [] false)) as H.
    destruct (process_batches call_succeeds new_chunks
                (map (fun j => j * batch_size)
                     (seq 0 ((List.length new_chunks + batch_size - 1) / batch_size)))
                (mk_world db' [] false)) as [w r].
    destruct H as (L & added & HL & _ & HS & _ & Hshape & Hfail & Hkept).
    cbn [fst snd attempt_log store] in HL, HS, Hfail. rewrite app_nil_l in HL.
    exists added. destruct r as [[]|e]; cbn [fst snd attempt_log store];
      rewrite HL; (split; [reflexivity|]); (split; [exact HS|]);
      (split; [exact Hshape|]); (split; [|exact Hkept]).
    + intros b HF. destruct (Hfail b HF) as [Hr _]. discriminate Hr.
    + exact Hfail.
Qed.

(** C8: in every run of [add_to_chroma], whatever calls of the store
    fail: a batch is inserted with at most 3 calls; no call is made for
    a batch after a call for it succeeded; when the 3 calls of a batch
    fail, the run ends with the exception and no later batch is tried;
    and the chunks of every batch whose insertion succeeded, like the
    entries that were there before, are in the store when the run ends,
    also when it ends with the exception. *)
Theorem add_to_chroma_retry (call_succeeds : nat -> bool) (chunks : list document)
  (reset : bool) (db : list (string * document)) :
  let db' := if reset then reset_store db else db in
  let res := add_to_chroma call_succeeds chunks reset db in
  let log := attempt_log res.1 in
  (forall b, List.length (attempts_of b log) <= 3)
  /\ (forall b l1 l2, log = l1 ++ (b, true) :: l2 -> attempts_of b l2 = [])
  /\ (forall b, attempts_of b log = [false; false; false] ->
                res.2 = Raises StoreError
                /\ forall b', b < b' -> attempts_of b' log = [])
  /\ (exists new_chunks,
        for_each (new_chunk_step (list_to_set (map fst db')))
                 (calculate_chunk_ids chunks) [] = Returns new_chunks
        /\ forall b c, true ∈ attempts_of b log -> c ∈ batch_of new_chunks b ->
                       (id_of c, c) ∈ store res.1)
  /\ (forall e, e ∈ db' -> e ∈ store res.1).
Proof.
  intros db' res log.
  destruct (add_to_chroma_log call_succeeds chunks reset db)
    as (new_chunks & added & Hnew & Hstore & Hshape & Hfail & Hkept).
  fold db' in Hnew, Hstore. fold res in Hstore, Hshape, Hfail, Hkept.
  fold log in Hshape, Hfail, Hkept.
  split; [intros b; apply shape_length, Hshape|].
  split.
  { intros b l1 l2 Hlog.
    apply (shape_success_last (attempts_of b log) (attempts_of b l1)); [apply Hshape|].
    rewrite Hlog, attempts_of_app. unfold attempts_of at 2.
    rewrite filter_cons. simpl. rewrite decide_True by reflexivity. reflexivity. }
  split; [exact Hfail|].
  split.
  { exists new_chunks. split; [exact Hnew|]. intros b c Ht Hc.
    rewrite Hstore. apply elem_of_app. right. exact (Hkept b c Ht Hc). }
  intros e He. rewrite Hstore. apply elem_of_app. left. exact He.
Qed.

(** A run over twelve new chunks in which the first batch is stored at
    once and the three calls for the second batch fail: the run ends
    with the exception, and the ten chunks of the first batch stay in
    the store. *)
Example add_to_chroma_second_batch_fails :
  let chunks := map (fun _ => code_chunk "a.py" "x") (seq 0 12) in
  let res := add_to_chroma (fun k => (k =? 0)%nat) chunks false [] in
  attempt_log res.1 = [(1, true); (2, false); (2, false); (2, false)]
  /\ res.2 = Raises StoreError
  /\ List.length (store res.1) = 10
  /\ persisted res.1 = false.
Proof. vm_compute. repeat split; reflexivity. Qed.

(** A run in which the first two calls fail and all later ones succeed:
    the first batch takes three calls, the second one call. *)
Example add_to_chroma_retries_then_succeeds :
  let chunks := map (fun _ => code_chunk "a.py" "x") (seq 0 12) in
  let res := add_to_chroma (fun k => (2 <=? k)%nat) chunks false [] in
  attempt_log res.1 = [(1, false); (1, false); (1, true); (2, true)]
  /\ res.2 = Returns tt
  /\ List.length (store res.1) = 12
  /\ persisted res.1 = true.
Proof. vm_compute. repeat split; reflexivity. Qed.

(** * Further properties *)

(** ** Loops *)

Lemma for_each_invariant {A S : Type} (P : S -> Prop) (body : S -> A -> outcome S)
  (xs : list A) :
  (forall st x st', x ∈ xs -> P st -> body st x = Returns st' -> P st') ->
  forall st r, P st -> for_each body xs st = Returns r -> P r.
Proof.
  induction xs as [|x xs IH]; intros Hstep st r Hst Hrun; simpl in Hrun.
  - injection Hrun as <-. exact Hst.
  - destruct (body st x) as [st'|e] eqn:E; simpl in Hrun; [|discriminate Hrun].
    apply (IH (fun st0 y st1 Hy => Hstep st0 y st1 (list_elem_of_further _ _ _ Hy)) st');
      [|exact Hrun].
    apply (Hstep st x st'); [left|exact Hst|exact E].
Qed.

Lemma for_each_returns {A S : Type} (body : S -> A -> outcome S) (xs : list A) :
  (forall st x, x ∈ xs -> exists st', body st x = Returns st') ->
  forall st, exists r, for_each body xs st = Returns r.
Proof.
  induction xs as [|x xs IH]; intros Hstep st; simpl.
  - eexists. reflexivity.
  - destruct (Hstep st x) as [st' E]; [left|]. rewrite E. simpl.
    apply IH. intros st0 y Hy. apply Hstep. right. exact Hy.
Qed.

Lemma for_each_cons {A S : Type} (body : S -> A -> outcome S) (x : A) (xs : list A)
  (st : S) :
  for_each body (x :: xs) st = body st x ≫= fun st' => for_each body xs st'.
Proof. reflexivity. Qed.

(** ** Stripping *)

Lemma lstrip_idem (s : string) : Py.lstrip (Py.lstrip s) = Py.lstrip s.
Proof.
  induction s as [|c s IH]; simpl; [reflexivity|].
  destruct (Py.isspace c) eqn:E; [exact IH|]. simpl. rewrite E. reflexivity.
Qed.

Lemma rstrip_idem (s : string) : Py.rstrip (Py.rstrip s) = Py.rstrip s.
Proof.
  induction s as [|c s IH]; simpl; [reflexivity|].
  destruct (Py.isspace c) eqn:E; simpl.
  - destruct (Py.rstrip s) as [|d r] eqn:Er; simpl; [reflexivity|].
    simpl in IH. rewrite E. simpl. rewrite IH. reflexivity.
  - rewrite E. simpl. rewrite IH. reflexivity.
Qed.

Lemma rstrip_lstrip (s : string) : Py.rstrip (Py.lstrip s) = Py.lstrip (Py.rstrip s).
Proof.
  induction s as [|c s IH]; simpl; [reflexivity|].
  destruct (Py.isspace c) eqn:E; simpl.
  - rewrite IH. destruct (Py.rstrip s) as [|d r]; simpl; [reflexivity|].
    rewrite E. reflexivity.
  - rewrite ?E. simpl. rewrite ?E. reflexivity.
Qed.

Lemma strip_idem (s : string) : Py.strip (Py.strip s) = Py.strip s.
Proof.
  unfold Py.strip. rewrite rstrip_lstrip, rstrip_idem, lstrip_idem. reflexivity.
Qed.

Lemma getitem_0_truthy (s : string) :
  Py.truthy s = true -> exists c, Py.getitem s 0 = Returns c.
Proof. destruct s; [discriminate|]. intros _. eexists. reflexivity. Qed.

Lemma is_question_line_truthy (line : string) :
  Py.truthy line = true -> exists b, is_question_line line = Returns b.
Proof.
  intros H. unfold is_question_line.
  destruct (Py.startswith line "Question"); [eexists; reflexivity|].
  destruct (getitem_0_truthy line H) as [c ->]. simpl. eexists. reflexivity.
Qed.

Lemma question_text_of_stripped (raw : string) :
  Py.strip (question_text_of (Py.strip raw)) = question_text_of (Py.strip raw).
Proof.
  unfold question_text_of.
  destruct (Py.contains ":" (Py.strip raw)); apply strip_idem.
Qed.

(** ** The parsers on arbitrary input *)

(** One step of evaluation that leaves the string built-ins folded. *)
Ltac run_step :=
  cbn -[Py.in_list Py.drop Py.take Py.strip Py.getitem Py.contains Py.split
        Py.split1_last Py.str_isdigit Py.startswith String.eqb].

Tactic Notation "run_step" "in" hyp(H) :=
  cbn -[Py.in_list Py.drop Py.take Py.strip Py.getitem Py.contains Py.split
        Py.split1_last Py.str_isdigit Py.startswith Py.remove_char Py.truthy
        String.eqb] in H.

Lemma question_line_blank (raw : string) :
  Py.truthy (Py.strip raw) = false -> question_line raw = false.
Proof.
  unfold question_line. destruct (Py.strip raw); [reflexivity|discriminate].
Qed.

(** What one iteration of [parse_tf_questions] does when it returns. *)
Lemma tf_step_returns (questions qs' : list question_rec) (raw : string) :
  tf_step questions raw = Returns qs' ->
  if question_line raw
  then exists t, Py.strip t = t /\ qs' = questions ++ [mk_question t tf_options]
  else qs' = questions.
Proof.
  unfold tf_step. destruct (Py.truthy (Py.strip raw)) eqn:Et; simpl.
  2:{ rewrite (question_line_blank raw Et). intros H. injection H as <-. reflexivity. }
  unfold question_line.
  destruct (is_question_line (Py.strip raw)) as [[|]|e]; simpl;
    try (intros H; first [injection H as <-; reflexivity | discriminate H]).
  destruct (Py.getitem (question_text_of (Py.strip raw)) 0) as [c|e]; simpl;
    [|discriminate].
  intros H. injection H as <-. eexists. split; [|reflexivity].
  destruct (Py.str_isdigit c); [apply strip_idem|apply question_text_of_stripped].
Qed.

(** What one iteration of [parse_mcq_questions] does when it returns. *)
Lemma mcq_step_returns (questions questions' : list question_rec)
  (cur cur' : option question_rec) (raw : string) :
  mcq_step (questions, cur) raw = Returns (questions', cur') ->
  if question_line raw
  then questions' = questions ++ closed_question cur
       /\ cur' = Some (mk_question (question_text_of (Py.strip raw)) [])
  else questions' = questions
       /\ (cur' = cur
           \/ exists q c0 t,
               cur = Some q /\ c0 ∈ ["A"; "B"; "C"; "D"] /\ Py.strip t = t
               /\ cur' = Some (mk_question (question q) (options q ++ [(c0, t)]))).
Proof.
  unfold mcq_step. destruct (Py.truthy (Py.strip raw)) eqn:Et; run_step.
  2:{ rewrite (question_line_blank raw Et). intros H. injection H as <- <-. auto. }
  unfold question_line.
  destruct (is_question_line (Py.strip raw)) as [[|]|e]; run_step; [| |discriminate].
  - intros H. injection H as <- <-. destruct cur; simpl; rewrite ?app_nil_r; auto.
  - destruct cur as [q|]; [|intros H; injection H as <- <-; auto].
    destruct (Py.getitem (Py.strip raw) 0) as [c0|e]; run_step; [|discriminate].
    destruct (Py.in_list c0 ["A"; "B"; "C"; "D"]) eqn:Ein;
      [|intros H; injection H as <- <-; auto].
    destruct (Py.getitem (Py.strip raw) 1) as [c1|e]; run_step; [|discriminate].
    destruct (String.eqb c1 ")" || String.eqb c1 ".");
      [|intros H; injection H as <- <-; auto].
    intros H. injection H as <- <-. split; [reflexivity|]. right.
    exists q, c0, (Py.strip (Py.drop 2 (Py.strip raw))).
    split; [reflexivity|]. split; [|split; [apply strip_idem|reflexivity]].
    unfold Py.in_list in Ein. apply existsb_exists in Ein as (x & Hx & Heq).
    apply String.eqb_eq in Heq as ->. apply list_elem_of_In, Hx.
Qed.

(** X1: every question that [parse_tf_questions] returns carries exactly
    the two options True and False, and its text has no surrounding
    whitespace. *)
Theorem parse_tf_options (text : string) (qs : list question_rec) :
  parse_tf_questions text = Returns qs ->
  Forall (fun q => options q = tf_options /\ Py.strip (question q) = question q) qs.
Proof.
  unfold parse_tf_questions.
  apply (for_each_invariant
           (Forall (fun q => options q = tf_options
                             /\ Py.strip (question q) = question q)));
    [|constructor].
  intros st raw st' _ Hst Hstep. apply tf_step_returns in Hstep.
  destruct (question_line raw); [|subst st'; exact Hst].
  destruct Hstep as (t & Ht & ->). apply Forall_app. split; [exact Hst|].
  constructor; [|constructor]. split; [reflexivity|exact Ht].
Qed.

Lemma parse_tf_options_witness :
  exists qs, parse_tf_questions "1. TLS is secure" = Returns qs
             /\ Forall (fun q => options q = tf_options
                                 /\ Py.strip (question q) = question q) qs.
Proof.
  eexists. split; [vm_compute; reflexivity|].
  apply (parse_tf_options "1. TLS is secure"). vm_compute. reflexivity.
Defined.

(** X2: in every question that [parse_mcq_questions] returns, each
    option label is one of the letters A to D, and the question text
    and the option texts have no surrounding whitespace. *)
Theorem parse_mcq_well_formed (text : string) (qs : list question_rec) :
  parse_mcq_questions text = Returns qs -> Forall well_formed_mcq qs.
Proof.
  unfold parse_mcq_questions. intros H.
  destruct (for_each mcq_step (Py.split (Py.strip text) newline) ([], None))
    as [[questions cur]|e] eqn:E; simpl in H; [|discriminate H].
  assert (Hinv : Forall well_formed_mcq questions
                 /\ Forall well_formed_mcq (closed_question cur)).
  { revert E.
    apply (for_each_invariant
             (fun st => Forall well_formed_mcq st.1
                        /\ Forall well_formed_mcq (closed_question st.2)));
      [|split; constructor].
    intros [qs0 c0] raw [qs1 c1] _ [Hq Hc] Hstep. simpl in *.
    apply mcq_step_returns in Hstep.
    destruct (question_line raw).
    - destruct Hstep as [-> ->]. split; [apply Forall_app; auto|].
      constructor; [|constructor]. split; [apply question_text_of_stripped|constructor].
    - destruct Hstep as [-> [->|(q & l & t & -> & Hl & Ht & ->)]]; [auto|].
      split; [exact Hq|]. constructor; [|constructor].
      apply Forall_inv in Hc. destruct Hc as [Hqt Hopts].
      split; [exact Hqt|]. simpl. apply Forall_app. split; [exact Hopts|].
      constructor; [|constructor]. split; assumption. }
  destruct Hinv as [Hq Hc].
  destruct cur as [q|]; [|injection H as <-; exact Hq].
  destruct (negb (List.length (options q) =? 0)%nat); injection H as <-;
    [apply Forall_app; auto|exact Hq].
Qed.

Lemma parse_mcq_well_formed_witness :
  exists qs, parse_mcq_questions rsa_quiz = Returns qs /\ Forall well_formed_mcq qs.
Proof.
  eexists. split; [vm_compute; reflexivity|].
  apply (parse_mcq_well_formed rsa_quiz). vm_compute. reflexivity.
Defined.

(** X3: a text without a question line gives no question in either
    parser, and raises nothing: option lines before the first question
    line are ignored. *)
Theorem parsers_no_question_line (text : string) :
  Forall (fun raw => question_line raw = false) (lines_in text) ->
  parse_mcq_questions text = Returns [] /\ parse_tf_questions text = Returns [].
Proof.
  unfold lines_in, parse_mcq_questions, parse_tf_questions.
  generalize (Py.split (Py.strip text) newline). intros lines H.
  assert (Hm : for_each mcq_step lines ([], None) = Returns ([], None)).
  { induction H as [|raw lines Hraw _ IH]; [reflexivity|]. rewrite for_each_cons.
    assert (Hs : mcq_step ([], None) raw = Returns ([], None)).
    { unfold mcq_step, question_line in *.
      destruct (Py.truthy (Py.strip raw)) eqn:Et; [|reflexivity]. run_step.
      destruct (is_question_line_truthy _ Et) as [b Hb]. rewrite Hb in *.
      destruct b; [discriminate Hraw|reflexivity]. }
    rewrite Hs. exact IH. }
  assert (Ht : for_each tf_step lines [] = Returns []).
  { clear Hm.
    induction H as [|raw lines Hraw _ IH]; [reflexivity|]. rewrite for_each_cons.
    assert (Hs : tf_step [] raw = Returns []).
    { unfold tf_step, question_line in *.
      destruct (Py.truthy (Py.strip raw)) eqn:Et; [|reflexivity]. run_step.
      destruct (is_question_line_truthy _ Et) as [b Hb]. rewrite Hb in *.
      destruct b; [discriminate Hraw|reflexivity]. }
    rewrite Hs. exact IH. }
  rewrite Hm, Ht. split; reflexivity.
Qed.

Lemma parsers_no_question_line_witness :
  parse_mcq_questions (lines_of ["A) Cipher"; "B"; "some text: more"]) = Returns []
  /\ parse_tf_questions (lines_of ["A) Cipher"; "B"; "some text: more"]) = Returns [].
Proof.
  apply parsers_no_question_line. vm_compute. repeat constructor.
Defined.

(** X4: [parse_mcq_questions] returns normally on every text in which
    no line consists of a single character once stripped. *)
Theorem parse_mcq_returns (text : string) :
  Forall (fun raw => String.length (Py.strip raw) <> 1) (lines_in text) ->
  exists qs, parse_mcq_questions text = Returns qs.
Proof.
  unfold lines_in, parse_mcq_questions. intros H.
  destruct (for_each_returns mcq_step (Py.split (Py.strip text) newline))
    with (st := ([] : list question_rec, None : option question_rec))
    as [[questions cur] E].
  - intros [qs0 cur0] raw Hin. rewrite Forall_forall in H. specialize (H raw Hin).
    unfold mcq_step.
    destruct (Py.strip raw) as [|a [|b r]] eqn:Es; [eexists; reflexivity|simpl in H; lia|].
    run_step.
    destruct (is_question_line_truthy (String a (String b r)) eq_refl) as [q ->].
    run_step. destruct q; [eexists; reflexivity|].
    destruct cur0 as [q0|]; [|eexists; reflexivity].
    change (Py.getitem (String a (String b r)) 0) with (Returns (String a EmptyString)).
    change (Py.getitem (String a (String b r)) 1) with (Returns (String b EmptyString)).
    run_step.
    destruct (Py.in_list (String a EmptyString) ["A"; "B"; "C"; "D"]);
      [|eexists; reflexivity].
    destruct (String.eqb (String b EmptyString) ")"
              || String.eqb (String b EmptyString) "."); eexists; reflexivity.
  - rewrite E. simpl. destruct cur as [q|]; [|eexists; reflexivity].
    destruct (negb (List.length (options q) =? 0)%nat); eexists; reflexivity.
Qed.

Lemma parse_mcq_returns_witness :
  exists qs, parse_mcq_questions rsa_quiz = Returns qs.
Proof.
  apply parse_mcq_returns. vm_compute. repeat constructor; discriminate.
Defined.

(** X5: [parse_tf_questions] returns normally on every text in which
    each line that has a colon has more than whitespace after its first
    colon. *)
Theorem parse_tf_returns (text : string) :
  Forall (fun raw =>
            Py.contains ":" (Py.strip raw) = true ->
            Py.truthy (Py.strip (Py.split1_last (Py.strip raw) ":")) = true)
         (lines_in text) ->
  exists qs, parse_tf_questions text = Returns qs.
Proof.
  unfold lines_in, parse_tf_questions. intros H.
  apply for_each_returns. intros qs0 raw Hin.
  rewrite Forall_forall in H. specialize (H raw Hin).
  unfold tf_step.
  destruct (Py.truthy (Py.strip raw)) eqn:Et; [|eexists; reflexivity]. run_step.
  destruct (is_question_line_truthy _ Et) as [q ->]. run_step.
  destruct q; [|eexists; reflexivity].
  assert (Hq : Py.truthy (question_text_of (Py.strip raw)) = true).
  { unfold question_text_of.
    destruct (Py.contains ":" (Py.strip raw)); [apply H; reflexivity|exact Et]. }
  destruct (getitem_0_truthy _ Hq) as [c ->]. run_step. eexists. reflexivity.
Qed.

Lemma parse_tf_returns_witness :
  exists qs, parse_tf_questions (lines_of ["Question 1: TLS is secure"; "2. AES"])
             = Returns qs.
Proof.
  apply parse_tf_returns. vm_compute. repeat constructor.
Defined.

Lemma tf_count (lines : list string) :
  forall questions qs,
    for_each tf_step lines questions = Returns qs ->
    List.length qs = List.length questions + List.length (List.filter question_line lines).
Proof.
  induction lines as [|raw lines IH]; intros questions qs H; simpl in H.
  - injection H as <-. simpl. lia.
  - destruct (tf_step questions raw) as [qs1|e] eqn:E; simpl in H; [|discriminate H].
    apply IH in H. apply tf_step_returns in E. simpl.
    destruct (question_line raw).
    + destruct E as (t & _ & ->). rewrite length_app in H. simpl in *. lia.
    + subst qs1. lia.
Qed.

Lemma mcq_count (lines : list string) :
  forall questions cur questions' cur',
    for_each mcq_step lines (questions, cur) = Returns (questions', cur') ->
    List.length questions' + List.length (closed_question cur')
    = List.length questions + List.length (closed_question cur)
      + List.length (List.filter question_line lines).
Proof.
  induction lines as [|raw lines IH]; intros questions cur questions' cur' H.
  - injection H as <- <-. simpl. lia.
  - rewrite for_each_cons in H.
    destruct (mcq_step (questions, cur) raw) as [[qs1 c1]|e] eqn:E; simpl in H;
      [|discriminate H].
    apply IH in H. apply mcq_step_returns in E. simpl.
    destruct (question_line raw).
    + destruct E as [-> ->]. rewrite length_app in H. simpl in *. lia.
    + destruct E as [-> [->|(q & l & t & -> & _ & _ & ->)]]; simpl in *; lia.
Qed.

(** X6: when the parsers return, [parse_tf_questions] gives exactly one
    question per question line, and [parse_mcq_questions] gives at most
    one per question line and at least one less than that. *)
Theorem parsers_question_count (text : string) :
  (forall qs, parse_tf_questions text = Returns qs ->
              List.length qs = List.length (List.filter question_line (lines_in text)))
  /\ (forall qs, parse_mcq_questions text = Returns qs ->
                 List.length qs <= List.length (List.filter question_line (lines_in text))
                 /\ List.length (List.filter question_line (lines_in text))
                    <= List.length qs + 1).
Proof.
  unfold lines_in. split.
  - intros qs H. apply tf_count in H. simpl in H. exact H.
  - unfold parse_mcq_questions. intros qs H.
    destruct (for_each mcq_step (Py.split (Py.strip text) newline) ([], None))
      as [[questions cur]|e] eqn:E; simpl in H; [|discriminate H].
    apply mcq_count in E. simpl in E.
    destruct cur as [q|]; simpl in E.
    + destruct (negb (List.length (options q) =? 0)%nat); injection H as <-;
        rewrite ?length_app; simpl; lia.
    + injection H as <-. lia.
Qed.

(** ** Extraction of the correct answers on arbitrary input *)

(** A separator that occurs in a string splits it into at least two parts. *)
Lemma split_aux_contains (sep : string) (s : string) :
  Py.truthy sep = true -> Py.contains sep s = true -> (Py.split_aux sep 0 s).2 <> [].
Proof.
  intros Hsep. induction s as [|c s IH]; intros H.
  - destruct sep; [discriminate Hsep|discriminate H].
  - cbn [Py.split_aux]. cbn [Py.contains] in H.
    destruct (String.prefix sep (String c s)).
    + simpl. destruct (Py.split_aux sep (String.length sep - 1) s). discriminate.
    + simpl in H. specialize (IH H).
      destruct (Py.split_aux sep 0 s) as [seg rest]. exact IH.
Qed.

(** The statements under [try] raise nothing on a line that has the marker. *)
Lemma extract_try_returns (m : gmap nat string) (idx : nat) (line : string) :
  Py.contains answer_marker line = true ->
  extract_try m idx line = Returns m
  \/ exists c, c ∈ answer_letters /\ extract_try m idx line = Returns (<[idx := c]> m).
Proof.
  intros H. remember (extract_try m idx line) as r eqn:E.
  unfold extract_try, Py.split in E.
  pose proof (split_aux_contains answer_marker line eq_refl H) as Hs.
  destruct (Py.split_aux answer_marker 0 line) as [seg [|after rest]];
    [contradiction Hs; reflexivity|].
  unfold Py.list_getitem in E. cbn [nth_error] in E. run_step in E.
  destruct (Py.split_aux "," 0 after) as [first rest'].
  run_step in E.
  set (correct := Py.strip (Py.remove_char "]" (Py.remove_char "[" (Py.strip first))))
    in E.
  destruct (Py.truthy correct) eqn:Et; [|left; exact E].
  destruct (getitem_0_truthy _ Et) as [c Hc]. rewrite Hc in E. run_step in E.
  destruct (Py.in_list c ["A"; "B"; "C"; "D"; "T"; "F"]) eqn:Ein; [|left; exact E].
  right. exists c. split; [|exact E].
  unfold Py.in_list in Ein. apply existsb_exists in Ein as (x & Hx & Heq).
  apply String.eqb_eq in Heq as ->. apply list_elem_of_In, Hx.
Qed.

Lemma extract_step_cases (m : gmap nat string) (idx : nat) (line : string) :
  Py.contains answer_marker line = true ->
  extract_step m (idx, line) = m
  \/ exists c, c ∈ answer_letters /\ extract_step m (idx, line) = <[idx := c]> m.
Proof.
  intros H. unfold extract_step. rewrite H.
  destruct (extract_try_returns m idx line H) as [E|(c & Hc & E)]; rewrite E;
    [left; reflexivity|right; exists c; auto].
Qed.

(** X7: the statements under [try] in the extraction loop never raise
    on a line that contains "Correct Answer:", so the bare [except]
    never hides an error; the line either leaves the answers as they
    are or records one of the letters A, B, C, D, T, F at its index. *)
Theorem extraction_never_raises (m : gmap nat string) (idx : nat) (line : string) :
  Py.contains answer_marker line = true ->
  (exists m', extract_try m idx line = Returns m')
  /\ (extract_step m (idx, line) = m
      \/ exists c, c ∈ answer_letters /\ extract_step m (idx, line) = <[idx := c]> m).
Proof.
  intros H. split; [|apply extract_step_cases, H].
  destruct (extract_try_returns m idx line H) as [E|(c & _ & E)];
    rewrite E; eexists; reflexivity.
Qed.

Lemma extraction_never_raises_witness :
  exists m', extract_try ∅ 0 tf_evaluation = Returns m'.
Proof.
  exact (proj1 (extraction_never_raises ∅ 0 tf_evaluation eq_refl)).
Defined.

Lemma elem_of_enumerate {A : Type} (xs : list A) (i : nat) (x : A) :
  (i, x) ∈ enumerate xs -> xs !! i = Some x.
Proof.
  unfold enumerate. intros H. apply list_elem_of_lookup in H as [k Hk].
  apply lookup_zip_with_Some in Hk as (i' & x' & Heq & Hi & Hx).
  injection Heq as -> ->. apply lookup_seq in Hi as [-> _]. exact Hx.
Qed.

Lemma extract_fold (lines : list string) (entries : list (nat * string)) :
  (forall i line, (i, line) ∈ entries -> lines !! i = Some line) ->
  forall m,
    (forall i v, m !! i = Some v ->
                 v ∈ answer_letters
                 /\ exists line, lines !! i = Some line
                                 /\ Py.contains answer_marker line = true) ->
    forall i v, fold_left extract_step entries m !! i = Some v ->
                v ∈ answer_letters
                /\ exists line, lines !! i = Some line
                                /\ Py.contains answer_marker line = true.
Proof.
  induction entries as [|[idx line] entries IH]; intros Hent m Hm; [exact Hm|].
  cbn [fold_left]. apply IH.
  - intros i l Hin. apply Hent. right. exact Hin.
  - intros i v Hiv.
    destruct (Py.contains answer_marker line) eqn:Ec.
    + destruct (extract_step_cases m idx line Ec) as [E|(c & Hc & E)];
        rewrite E in Hiv; [apply Hm, Hiv|].
      destruct (decide (idx = i)) as [->|Hne].
      * rewrite lookup_insert_eq in Hiv. injection Hiv as <-. split; [exact Hc|].
        exists line. split; [apply Hent; left|exact Ec].
      * rewrite lookup_insert_ne in Hiv by exact Hne. apply Hm, Hiv.
    + unfold extract_step in Hiv. rewrite Ec in Hiv. apply Hm, Hiv.
Qed.

Lemma extracted_answer_letter (evaluation : string) (i : nat) (v : string) :
  extract_correct_answers evaluation !! i = Some v -> v ∈ answer_letters.
Proof.
  intros H. unfold extract_correct_answers in H.
  refine (proj1 (extract_fold (Py.split evaluation newline) _ _ ∅ _ i v H)).
  - intros k line. apply elem_of_enumerate.
  - intros k w Hk. rewrite lookup_empty in Hk. discriminate Hk.
Qed.

(** X8: every correct answer that the extraction records is one of the
    letters A, B, C, D, T, F, and its key is the index, among the lines
    of the evaluation text, of a line that contains "Correct Answer:";
    the key is a line index, whatever question number the line names. *)
Theorem extracted_answers_spec (evaluation : string) (i : nat) (v : string) :
  extract_correct_answers evaluation !! i = Some v ->
  v ∈ answer_letters
  /\ exists line, Py.split evaluation newline !! i = Some line
                  /\ Py.contains answer_marker line = true.
Proof.
  unfold extract_correct_answers.
  apply (extract_fold (Py.split evaluation newline)).
  - intros k line. apply elem_of_enumerate.
  - intros k w Hk. rewrite lookup_empty in Hk. discriminate Hk.
Qed.

Lemma extracted_answers_spec_witness :
  extract_correct_answers shifted_evaluation !! 1 = Some "B"
  /\ extract_correct_answers shifted_evaluation !! 0 = None
  /\ "B" ∈ answer_letters.
Proof.
  split; [vm_compute; reflexivity|]. split; [vm_compute; reflexivity|].
  exact (proj1 (extracted_answers_spec shifted_evaluation 1 "B" eq_refl)).
Defined.

(** X9: with the correct answers taken from an evaluation text, only
    an answer that is one of the letters A, B, C, D, T, F (or the text
    "?") can be counted correct: a question left unanswered is never
    counted correct, and neither is an answer True or False, the labels
    that [parse_tf_questions] gives to its options. *)
Theorem only_letters_count (evaluation : string) (user_answers : gmap nat string)
  (i : nat) :
  (user_answer_at user_answers i ∉ answer_letters ->
   user_answer_at user_answers i <> "?" ->
   is_correct user_answers (extract_correct_answers evaluation) i = false)
  /\ (user_answers !! i = None ->
      is_correct user_answers (extract_correct_answers evaluation) i = false)
  /\ (user_answers !! i = Some "True" \/ user_answers !! i = Some "False" ->
      is_correct user_answers (extract_correct_answers evaluation) i = false).
Proof.
  assert (H : user_answer_at user_answers i ∉ answer_letters ->
              user_answer_at user_answers i <> "?" ->
              is_correct user_answers (extract_correct_answers evaluation) i = false).
  { intros Hn Hq. unfold is_correct. apply String.eqb_neq. intros Heq.
    unfold correct_answer_at in Heq.
    destruct (extract_correct_answers evaluation !! i) as [v|] eqn:E; simpl in Heq.
    - apply extracted_answer_letter in E. apply Hn. rewrite Heq. exact E.
    - apply Hq. exact Heq. }
  split; [exact H|]. split.
  - intros Hu. apply H; unfold user_answer_at; rewrite Hu; simpl.
    + unfold answer_letters. rewrite !elem_of_cons, elem_of_nil.
      intros [E|[E|[E|[E|[E|[E|[]]]]]]]; discriminate E.
    + discriminate.
  - intros [Hu|Hu]; apply H; unfold user_answer_at; rewrite Hu; simpl;
      try discriminate; unfold answer_letters; rewrite !elem_of_cons, elem_of_nil;
      intros [E|[E|[E|[E|[E|[E|[]]]]]]]; discriminate E.
Qed.

(** ** Bounds of the score *)

(** X10: the number of correct answers never exceeds the number of
    questions, and the percentage lies between 0 and 100. *)
Theorem score_bounds (qs : list question_rec) (ua ca : gmap nat string) :
  let r := quiz_results qs ua ca in
  correct r <= total r /\ (0 <= percentage r)%Q /\ (percentage r <= 100)%Q.
Proof.
  intros r. pose proof (correct_le_total qs ua ca) as Hle. fold r in Hle.
  split; [exact Hle|].
  subst r. unfold quiz_results in *. cbn [correct total percentage] in *.
  set (c := fold_left _ _ _) in *. clearbody c.
  destruct (Nat.ltb_spec 0 (List.length qs)) as [Hpos|_].
  - destruct (float_percentage_bound c (Pos.of_nat (List.length qs)))
      as (_ & H0 & H100 & _); [lia|].
    split; assumption.
  - split; [apply Qle_refl|discriminate].
Qed.

(** ** The style of the options in the results *)

(** X11: in the results, an option is shown as the correct answer
    exactly when its label is the correct answer, and as the wrong
    answer exactly when it is the user's choice and its label is not the
    correct answer; so no option is shown as wrong when the user's
    answer is the correct one. *)
Theorem option_style_spec (opt_letter user_answer correct_answer : string) :
  (option_style opt_letter user_answer correct_answer = "correct-answer"
   <-> opt_letter = correct_answer)
  /\ (option_style opt_letter user_answer correct_answer = "wrong-answer"
      <-> opt_letter = user_answer /\ opt_letter <> correct_answer)
  /\ (user_answer = correct_answer ->
      option_style opt_letter user_answer correct_answer <> "wrong-answer").
Proof.
  unfold option_style.
  destruct (String.eqb_spec opt_letter correct_answer) as [Hc|Hc];
    destruct (String.eqb_spec opt_letter user_answer) as [Hu|Hu];
    destruct (String.eqb_spec user_answer correct_answer) as [He|He];
    simpl; repeat split; intros; try discriminate; try congruence;
    try (destruct H; congruence).
Qed.

(** ** The ranked files *)

(** X12: [find_relevant_files] returns at most [max_files] entries; each
    is a file of the collection together with its score, which is
    positive; and the returned paths are pairwise distinct when those
    of the collection are. *)
Theorem find_relevant_files_sound (query : string)
  (code_files : list (string * string)) (max_files : nat) :
  let out := find_relevant_files query code_files max_files in
  List.length out <= max_files
  /\ List.length out <= List.length code_files
  /\ (forall p c n, (p, c, n) ∈ out ->
                    (p, c) ∈ code_files
                    /\ n = file_score (Py.lower query) p c /\ 0 < n)
  /\ (NoDup (fst <$> code_files) -> NoDup ((fun e => e.1.1) <$> out)).
Proof.
  intros out. split; [|split; [|split]].
  - subst out. unfold find_relevant_files, rank_files. rewrite length_take. lia.
  - subst out. unfold find_relevant_files, rank_files.
    rewrite scored_files_filter. simpl.
    etransitivity; [apply sublist_length, sublist_take|].
    rewrite sort_desc_perm.
    etransitivity; [apply length_filter|]. rewrite length_fmap. reflexivity.
  - intros p c n Hin. apply rank_files_elem in Hin as (Hn & Hpos & Hin). auto.
  - intros Hnd. subst out. unfold find_relevant_files, rank_files.
    rewrite scored_files_filter. simpl.
    eapply sublist_NoDup; [|apply fmap_sublist, sublist_take].
    rewrite sort_desc_perm.
    eapply sublist_NoDup; [|apply fmap_sublist, sublist_filter].
    rewrite <- list_fmap_compose.
    erewrite list_fmap_ext; [exact Hnd|]. intros i [p c] _. reflexivity.
Qed.

(** X13: the returned files are the best ones: a file of the collection
    with a positive score that is not returned has a score no greater
    than that of any returned file. *)
Theorem find_relevant_files_best (query : string)
  (code_files : list (string * string)) (max_files : nat)
  (p c p' c' : string) (n' : nat) :
  (p, c) ∈ code_files ->
  0 < file_score (Py.lower query) p c ->
  (p, c, file_score (Py.lower query) p c)
    ∉ find_relevant_files query code_files max_files ->
  (p', c', n') ∈ find_relevant_files query code_files max_files ->
  file_score (Py.lower query) p c <= n'.
Proof.
  unfold find_relevant_files, rank_files. rewrite scored_files_filter. simpl.
  set (scored := filter _ _). intros Hin Hpos Hnot Hout.
  set (e := (p, c, file_score (Py.lower query) p c)) in *.
  assert (He : e ∈ sort_desc score_of scored).
  { rewrite sort_desc_perm. subst scored. apply list_elem_of_filter.
    split; [exact Hpos|]. apply list_elem_of_fmap. exists (p, c). auto. }
  rewrite <- (take_drop max_files (sort_desc score_of scored)) in He.
  apply elem_of_app in He as [He|He]; [contradiction|].
  pose proof (sort_desc_sorted score_of scored) as Hs.
  rewrite <- (take_drop max_files (sort_desc score_of scored)) in Hs.
  exact (StronglySorted_app_1_elem_of (desc score_of) _ _ _ _ Hs Hout He).
Qed.

Lemma find_relevant_files_best_witness :
  find_relevant_files "quiz" four_files 2
  = [("c.py", "quiz quiz quiz", 3); ("a.py", "quiz quiz", 2)]
  /\ file_score (Py.lower "quiz") "b.py" "quiz" <= 2.
Proof.
  assert (E : find_relevant_files "quiz" four_files 2
              = [("c.py", "quiz quiz quiz", 3); ("a.py", "quiz quiz", 2)])
    by (vm_compute; reflexivity).
  assert (Hs : file_score (Py.lower "quiz") "b.py" "quiz" = 1)
    by (vm_compute; reflexivity).
  split; [exact E|].
  apply (find_relevant_files_best "quiz" four_files 2 "b.py" "quiz" "a.py" "quiz quiz" 2).
  - unfold four_files. right. left.
  - rewrite Hs. lia.
  - rewrite E, Hs. intros H. rewrite !elem_of_cons, elem_of_nil in H.
    destruct H as [H|[H|[]]]; discriminate H.
  - rewrite E. right. left.
Defined.

(** X14: the ranking reads the query, and the score reads the content
    and the path, only through their lower-cased forms: two queries with
    the same lower-cased form give the same ranking, in
    [find_relevant_files] and in the block of streamlit_app.py, and two
    paths, or two contents, with the same lower-cased form give a file
    the same score. *)
Theorem ranking_ignores_case (query query' : string)
  (code_files : list (string * string)) (max_files : nat) :
  Py.lower query = Py.lower query' ->
  find_relevant_files query code_files max_files
  = find_relevant_files query' code_files max_files
  /\ app_relevant_files query code_files = app_relevant_files query' code_files
  /\ (forall query_lower p p' c c',
        Py.lower p = Py.lower p' -> Py.lower c = Py.lower c' ->
        file_score query_lower p c = file_score query_lower p' c'
        /\ app_file_score query_lower p c = app_file_score query_lower p' c').
Proof.
  intros Hq. unfold find_relevant_files, app_relevant_files, rank_files.
  rewrite Hq. split; [reflexivity|]. split; [reflexivity|].
  intros ql p p' c c' Hp Hc. unfold file_score, app_file_score, path_mentioned.
  rewrite Hp, Hc. split; reflexivity.
Qed.

Lemma ranking_ignores_case_witness :
  find_relevant_files "Which QUIZ?" four_files 2
  = find_relevant_files "which quiz?" four_files 2
  /\ file_score "quiz" "SRC/Quiz.py" "Quiz QUIZ" = file_score "quiz" "src/quiz.py" "quiz quiz".
Proof.
  destruct (ranking_ignores_case "Which QUIZ?" "which quiz?" four_files 2 eq_refl)
    as (Hfind & _ & Hscore).
  split; [exact Hfind|].
  exact (proj1 (Hscore "quiz" "SRC/Quiz.py" "src/quiz.py" "Quiz QUIZ" "quiz quiz"
                  eq_refl eq_refl)).
Defined.

(** X15: a path with an empty segment, such as an absolute path, is
    taken as mentioned by every query, since the empty string occurs in
    every string: such a file always gets the bonus of 10. *)
Theorem absolute_path_bonus (query_lower rest content : string) :
  path_mentioned query_lower ("/" +:+ rest) = true
  /\ 10 <= file_score query_lower ("/" +:+ rest) content.
Proof.
  assert (H : path_mentioned query_lower ("/" +:+ rest) = true).
  { unfold path_mentioned, Py.split. rewrite append_cons, append_nil_l.
    cbn [Py.lower]. change (Py.lower_char "/") with "/"%char.
    assert (Hs : forall s, Py.split_aux "/" 0 (String "/" s)
                           = (EmptyString,
                              let '(seg, r) := Py.split_aux "/" 0 s in seg :: r))
      by (intros s; destruct s; reflexivity).
    rewrite Hs. cbn [existsb].
    destruct query_lower; reflexivity. }
  split; [exact H|]. unfold file_score. rewrite H. lia.
Qed.

(** ** The context of the prompt *)

Lemma length_append (s t : string) :
  String.length (s +:+ t) = String.length s + String.length t.
Proof.
  induction s as [|c s IH]; [reflexivity|].
  rewrite append_cons. simpl. rewrite IH. reflexivity.
Qed.

Lemma length_take_string (n : nat) (s : string) :
  String.length (Py.take n s) = Nat.min n (String.length s).
Proof.
  revert s. induction n as [|n IH]; intros [|c s]; simpl; try reflexivity.
  rewrite IH. reflexivity.
Qed.

Lemma take_all_string (n : nat) (s : string) :
  String.length s <= n -> Py.take n s = s.
Proof.
  revert s. induction n as [|n IH]; intros [|c s] H; simpl in *; try reflexivity;
    [lia|]. rewrite IH by lia. reflexivity.
Qed.

Lemma file_block_length (limit : nat) (p c : string) (n : nat) :
  String.length (file_block limit (p, c, n))
  = String.length p + Nat.min limit (String.length c)
    + (if (limit <? String.length c)%nat then 3 else 0) + 15.
Proof.
  unfold file_block. rewrite !length_append, length_take_string.
  destruct (limit <? String.length c)%nat; simpl; lia.
Qed.

(** X16: the context built from the relevant files is bounded,
    whatever the sizes of the files: each file contributes its path, at
    most [limit] characters of content, and at most 20 further
    characters. *)
Theorem build_context_bounded (limit : nat) (relevant_files : list scored_file) :
  String.length (build_context limit relevant_files)
  <= List.length relevant_files * (limit + 20)
     + sum_list ((fun e => String.length e.1.1) <$> relevant_files).
Proof.
  unfold build_context.
  induction relevant_files as [|[[p c] n] fs IH]; [simpl; lia|].
  cbn [map String.concat].
  assert (Hb : String.length (file_block limit (p, c, n))
               <= String.length p + limit + 18).
  { rewrite file_block_length.
    destruct (limit <? String.length c)%nat; lia. }
  destruct fs as [|f fs].
  - simpl in *. lia.
  - change (map (file_block limit) (f :: fs))
      with (file_block limit f :: map (file_block limit) fs) in *.
    cbn [String.concat map] in *.
    set (rest := match map (file_block limit) fs with
                 | [] => file_block limit f
                 | _ :: _ => _
                 end) in *.
    rewrite !length_append. cbn [fmap list_fmap sum_list_with sum_list List.length] in *.
    change (String.length newline) with 1. unfold id in *. cbn [fst] in *.
    clearbody rest. nia.
Qed.

Lemma sort_desc_nil {A : Type} (key : A -> nat) (l : list A) :
  sort_desc key l = [] <-> l = [].
Proof.
  split; [|intros ->; reflexivity].
  intros H. apply Permutation_nil_r. rewrite <- H. symmetry. apply sort_desc_perm.
Qed.

Lemma find_relevant_files_nil (question : string) (code_files : list (string * string))
  (max_files : nat) :
  0 < max_files ->
  find_relevant_files question code_files max_files = []
  <-> Forall (fun f => file_score (Py.lower question) f.1 f.2 = 0) code_files.
Proof.
  intros Hmax. unfold find_relevant_files, rank_files. rewrite scored_files_filter. simpl.
  set (scored := filter _ _).
  transitivity (scored = []).
  - rewrite <- (sort_desc_nil score_of scored).
    destruct max_files as [|k]; [lia|].
    destruct (sort_desc score_of scored); simpl; split; intros; congruence.
  - subst scored. split.
    + intros Hnil. apply Forall_forall. intros [p c] Hin. simpl.
      destruct (file_score (Py.lower question) p c) as [|k] eqn:E; [reflexivity|].
      exfalso.
      assert (Hin' : (p, c, S k)
                     ∈ filter (fun e => 0 < score_of e)
                              (with_score file_score (Py.lower question) <$> code_files)).
      { apply list_elem_of_filter. split; [unfold score_of; simpl; lia|].
        apply list_elem_of_fmap. exists (p, c). unfold with_score. simpl.
        rewrite E. auto. }
      rewrite Hnil in Hin'. inversion Hin'.
    + intros Hall.
      destruct (filter (fun e => 0 < score_of e)
                       (with_score file_score (Py.lower question) <$> code_files))
        as [|e l] eqn:E; [reflexivity|].
      exfalso.
      assert (Hin : e ∈ e :: l) by left. rewrite <- E in Hin.
      apply list_elem_of_filter in Hin as [Hpos Hin].
      apply list_elem_of_fmap in Hin as ([p c] & -> & Hin).
      rewrite Forall_forall in Hall. specialize (Hall _ Hin).
      unfold score_of, with_score in Hpos. simpl in *. lia.
Qed.

(** X17: [ask_about_code] returns no answer and sends no prompt to the
    model exactly when every file of the code base has score 0 for the
    question; otherwise it sends exactly one prompt, the template filled
    with the question and the context of the relevant files (at most 5,
    2000 characters each), and returns the answer of the model to that
    prompt. *)
Theorem ask_about_code_none (invoke : string -> string)
  (format_prompt : string -> string -> string)
  (question : string) (code_files : list (string * string)) :
  let irrelevant :=
    Forall (fun f => file_score (Py.lower question) f.1 f.2 = 0) code_files in
  let relevant_files := find_relevant_files question code_files 5 in
  let prompt := format_prompt (build_context 2000 relevant_files) question in
  let result := ask_about_code invoke format_prompt question code_files in
  (irrelevant -> result = (None, []))
  /\ (~ irrelevant ->
      result = (Some (invoke prompt), [prompt])
      /\ 1 <= List.length relevant_files <= 5)
  /\ (result.1 = None <-> irrelevant)
  /\ (result.2 = [] <-> irrelevant).
Proof.
  intros irrelevant relevant_files prompt result.
  pose proof (find_relevant_files_nil question code_files 5 ltac:(lia)) as H.
  fold irrelevant relevant_files in H.
  assert (Hlen : List.length relevant_files <= 5).
  { subst relevant_files. unfold find_relevant_files, rank_files.
    rewrite length_take. lia. }
  subst result prompt. unfold ask_about_code. fold relevant_files.
  destruct relevant_files as [|e l] eqn:E.
  - assert (Hirr : irrelevant) by (apply H; reflexivity).
    split; [reflexivity|]. split; [intros Hn; contradiction|].
    split; split; auto.
  - assert (Hrel : ~ irrelevant) by (intros Hi; apply H in Hi; discriminate Hi).
    split; [intros Hi; contradiction|]. split.
    + intros _. split; [reflexivity|]. simpl in *. lia.
    + cbn [fst snd]. split; split; try discriminate; intros Hi; contradiction.
Qed.

(** ** Batches *)

Lemma batches_cover (m : nat) :
  forall l : list document,
    List.length l <= m * batch_size ->
    concat (map (fun j => batch_at l (j * batch_size)) (seq 0 m)) = l.
Proof.
  unfold batch_at, batch_size. induction m as [|m IH]; intros l H.
  - simpl in H. destruct l; [reflexivity|simpl in H; lia].
  - cbn [seq map concat]. rewrite <- seq_shift, map_map.
    rewrite (map_ext _ (fun j => take 10 (drop (j * 10) (drop 10 l)))).
    + rewrite IH by (rewrite length_drop; lia). apply take_drop.
    + intros j. rewrite drop_drop. reflexivity.
Qed.

Lemma batches_concat (new_chunks : list document) :
  concat (map (batch_at new_chunks) (range_step (List.length new_chunks) batch_size))
  = new_chunks.
Proof.
  unfold range_step. rewrite map_map. apply batches_cover. unfold batch_size.
  pose proof (Nat.div_mod_eq (List.length new_chunks + 10 - 1) 10) as E.
  pose proof (Nat.mod_upper_bound (List.length new_chunks + 10 - 1) 10). lia.
Qed.

(** X18: the batches cut the new chunks into consecutive slices: put
    end to end they give the new chunks back, in order and without
    loss; each batch has between 1 and 10 chunks; and there are
    ceil(n / 10) of them. *)
Theorem batches_partition (new_chunks : list document) :
  let starts := range_step (List.length new_chunks) batch_size in
  concat (map (batch_at new_chunks) starts) = new_chunks
  /\ Forall (fun i => 1 <= List.length (batch_at new_chunks i) <= batch_size) starts
  /\ List.length starts * batch_size < List.length new_chunks + batch_size
  /\ List.length new_chunks <= List.length starts * batch_size.
Proof.
  unfold range_step, batch_size. cbv zeta.
  set (n := List.length new_chunks). set (m := (n + 10 - 1) / 10).
  assert (Hm : n <= m * 10 /\ m * 10 < n + 10).
  { subst m. pose proof (Nat.div_mod_eq (n + 10 - 1) 10) as E.
    pose proof (Nat.mod_upper_bound (n + 10 - 1) 10). lia. }
  split; [|split].
  - rewrite map_map. apply (batches_cover m). unfold batch_size. apply Hm.
  - apply Forall_forall. intros i Hi.
    apply list_elem_of_In, in_map_iff in Hi as (j & <- & Hj).
    apply in_seq in Hj. unfold batch_at, batch_size.
    rewrite length_take, length_drop. fold n. fold m in Hj. lia.
  - rewrite length_map, length_seq. lia.
Qed.

(** ** Runs in which the store accepts every call *)

Lemma zip_ids (batch : list document) : zip (id_of <$> batch) batch = stored <$> batch.
Proof. induction batch as [|c l IH]; [reflexivity|]. cbn. f_equal. exact IH. Qed.

Section AllSucceed.
Variable call_succeeds : nat -> bool.
Hypothesis all_succeed : forall k, call_succeeds k = true.

Lemma process_batches_all_succeed (new_chunks : list document) :
  Forall (fun c => is_Some (metadata c !! "id")) new_chunks ->
  forall starts w,
    process_batches call_succeeds new_chunks starts w
    = (mk_world (store w ++ (stored <$> concat (map (batch_at new_chunks) starts)))
                (attempt_log w ++ map (fun i => (i / batch_size + 1, true)) starts)
                (persisted w),
       Returns tt).
Proof.
  intros Hid. induction starts as [|i starts IH]; intros w.
  - simpl. rewrite !app_nil_r. destruct w; reflexivity.
  - cbn [process_batches]. unfold process_batch at 1. fold (batch_at new_chunks i).
    rewrite mapM_ids by (apply Forall_take, Forall_drop, Hid).
    unfold max_retries. cbn [seq insert_with_retry].
    rewrite add_documents_eq, all_succeed. rewrite IH. cbn [store attempt_log persisted].
    cbn [map concat]. rewrite zip_ids, fmap_app, <- !app_assoc. reflexivity.
Qed.
End AllSucceed.

Lemma new_chunks_of (existing_ids : gset string) (chunks : list document) :
  for_each (new_chunk_step existing_ids) (calculate_chunk_ids chunks) []
  = Returns (filter (fun c => metadata c !! "id" ∉ Some <$> elements existing_ids)
                    (calculate_chunk_ids chunks)).
Proof.
  rewrite (new_chunks_filter _ _ (calculate_chunk_ids_have_id chunks)). reflexivity.
Qed.

Lemma new_chunk_test (existing_ids : gset string) (c : document) :
  is_Some (metadata c !! "id") ->
  metadata c !! "id" ∉ Some <$> elements existing_ids <-> id_of c ∉ existing_ids.
Proof.
  intros [x Hx]. unfold id_of. rewrite Hx. simpl.
  rewrite list_elem_of_fmap. split.
  - intros H Hin. apply H. exists x. split; [reflexivity|apply elem_of_elements, Hin].
  - intros H (y & Hy & Hin). injection Hy as ->. apply H, elem_of_elements, Hin.
Qed.

Lemma add_to_chroma_all_succeed_run (call_succeeds : nat -> bool)
  (chunks : list document) (reset : bool) (db : list (string * document)) :
  (forall k, call_succeeds k = true) ->
  let db' := if reset then reset_store db else db in
  let existing_ids : gset string := list_to_set (map fst db') in
  let new_chunks := filter (fun c => metadata c !! "id" ∉ Some <$> elements existing_ids)
                           (calculate_chunk_ids chunks) in
  let res := add_to_chroma call_succeeds chunks reset db in
  res.2 = Returns tt
  /\ store res.1 = db' ++ (stored <$> new_chunks)
  /\ attempt_log res.1
     = (fun b => (b, true)) <$> seq 1 ((List.length new_chunks + 9) / 10).
Proof.
  intros Hall db' existing_ids new_chunks res. subst res. unfold add_to_chroma.
  fold db'. fold existing_ids. rewrite new_chunks_of. fold new_chunks.
  assert (Hid : Forall (fun c => is_Some (metadata c !! "id")) new_chunks).
  { apply Forall_forall. intros c Hc.
    apply list_elem_of_filter in Hc as [_ Hc]. revert c Hc.
    apply Forall_forall, calculate_chunk_ids_have_id. }
  clearbody new_chunks.
  destruct new_chunks as [|c0 rest] eqn:Enew.
  - simpl. rewrite app_nil_r. auto.
  - rewrite <- Enew in *.
    rewrite (process_batches_all_succeed call_succeeds Hall new_chunks Hid).
    cbn [fst snd store attempt_log].
    rewrite batches_concat. split; [reflexivity|]. split; [reflexivity|].
    unfold range_step, batch_size. rewrite app_nil_l, map_map.
    replace (List.length new_chunks + 10 - 1) with (List.length new_chunks + 9) by lia.
    rewrite <- seq_shift, map_map. apply map_ext. intros j.
    rewrite Nat.div_mul by lia. f_equal. lia.
Qed.

(** X19: when the store accepts every call, [add_to_chroma] ends
    normally; each batch takes exactly one call; and the store then
    holds what it held (after the reset, if any) followed by the new
    chunks, each under its identifier, in order. *)
Theorem add_to_chroma_all_succeed (call_succeeds : nat -> bool)
  (chunks : list document) (reset : bool) (db : list (string * document)) :
  (forall k, call_succeeds k = true) ->
  let db' := if reset then reset_store db else db in
  let res := add_to_chroma call_succeeds chunks reset db in
  exists new_chunks,
    for_each (new_chunk_step (list_to_set (map fst db'))) (calculate_chunk_ids chunks) []
    = Returns new_chunks
    /\ res.2 = Returns tt
    /\ store res.1 = db' ++ (stored <$> new_chunks)
    /\ attempt_log res.1
       = (fun b => (b, true)) <$> seq 1 ((List.length new_chunks + 9) / 10).
Proof.
  intros Hall db' res. eexists. split; [apply new_chunks_of|].
  exact (add_to_chroma_all_succeed_run call_succeeds chunks reset db Hall).
Qed.

Lemma add_to_chroma_all_succeed_witness :
  let res := add_to_chroma (fun _ => true) three_chunks false [] in
  res.2 = Returns tt
  /\ fst <$> store res.1 = ["code:a.py:0"; "code:a.py:1"; "code:b.py:0"]
  /\ attempt_log res.1 = [(1, true)].
Proof.
  destruct (add_to_chroma_all_succeed (fun _ => true) three_chunks false []
              (fun _ => eq_refl)) as (new_chunks & _ & Hr & _ & _).
  split; [exact Hr|]. split; vm_compute; reflexivity.
Defined.

(** ** Ingesting again *)

Lemma filter_nil_forall {A : Type} (P : A -> Prop) `{!forall x, Decision (P x)}
  (l : list A) :
  Forall (fun x => ~ P x) l -> filter P l = [].
Proof.
  induction 1 as [|x l Hx _ IH]; [reflexivity|].
  rewrite filter_cons, decide_False by exact Hx. exact IH.
Qed.

Lemma known_ids_no_new_chunks (chunks : list document)
  (db : list (string * document)) :
  Forall (fun c => id_of c ∈ fst <$> db) (calculate_chunk_ids chunks) ->
  for_each (new_chunk_step (list_to_set (map fst db))) (calculate_chunk_ids chunks) []
  = Returns [].
Proof.
  intros H. rewrite new_chunks_of. f_equal. apply filter_nil_forall.
  pose proof (calculate_chunk_ids_have_id chunks) as Hid.
  rewrite Forall_forall in H, Hid |- *. intros c Hc Hnew.
  apply (new_chunk_test _ c (Hid c Hc)) in Hnew. apply Hnew.
  apply elem_of_list_to_set. exact (H c Hc).
Qed.

(** X20: when every identifier that [calculate_chunk_ids] assigns is
    already in the store, [add_to_chroma] without reset calls the store
    not once, leaves it as it is, does not persist, and ends normally. *)
Theorem add_to_chroma_known_ids (call_succeeds : nat -> bool)
  (chunks : list document) (db : list (string * document)) :
  Forall (fun c => id_of c ∈ fst <$> db) (calculate_chunk_ids chunks) ->
  add_to_chroma call_succeeds chunks false db = (mk_world db [] false, Returns tt).
Proof.
  intros H. unfold add_to_chroma.
  rewrite (known_ids_no_new_chunks chunks db H). reflexivity.
Qed.

Lemma add_to_chroma_known_ids_witness :
  add_to_chroma (fun _ => false) three_chunks false
    (stored <$> calculate_chunk_ids three_chunks)
  = (mk_world (stored <$> calculate_chunk_ids three_chunks) [] false, Returns tt).
Proof.
  apply add_to_chroma_known_ids. rewrite <- list_fmap_compose.
  apply Forall_forall. intros c Hc. apply list_elem_of_fmap. exists c. auto.
Defined.

(** X21: ingestion is idempotent: after a run in which the store
    accepted every call, a second run over the same chunks, without
    reset and whatever the store would answer, makes no call and leaves
    the store unchanged. *)
Theorem add_to_chroma_idempotent (call_succeeds again : nat -> bool)
  (chunks : list document) (reset : bool) (db : list (string * document)) :
  (forall k, call_succeeds k = true) ->
  let after := store (add_to_chroma call_succeeds chunks reset db).1 in
  add_to_chroma again chunks false after = (mk_world after [] false, Returns tt).
Proof.
  intros Hall after. unfold add_to_chroma.
  rewrite known_ids_no_new_chunks; [reflexivity|].
  destruct (add_to_chroma_all_succeed_run call_succeeds chunks reset db Hall)
    as (_ & Hstore & _).
  fold after in Hstore. rewrite Hstore. clear Hstore after.
  set (db' := if reset then reset_store db else db).
  pose proof (calculate_chunk_ids_have_id chunks) as Hid.
  rewrite Forall_forall in Hid |- *. intros c Hc.
  rewrite fmap_app, elem_of_app.
  destruct (decide (id_of c ∈ (list_to_set (map fst db') : gset string))) as [Hin|Hnin].
  - left. apply elem_of_list_to_set in Hin. exact Hin.
  - right. rewrite <- list_fmap_compose. apply list_elem_of_fmap. exists c.
    split; [reflexivity|]. apply list_elem_of_filter. split; [|exact Hc].
    apply (new_chunk_test _ c (Hid c Hc)). exact Hnin.
Qed.

Lemma add_to_chroma_idempotent_witness :
  let after := store (add_to_chroma (fun _ => true) three_chunks false []).1 in
  add_to_chroma (fun _ => false) three_chunks false after
  = (mk_world after [] false, Returns tt).
Proof.
  exact (add_to_chroma_idempotent (fun _ => true) (fun _ => false) three_chunks false []
           (fun _ => eq_refl)).
Defined.

(** ** How a run ends *)

Section RunEnd.
Variable call_succeeds : nat -> bool.

Lemma process_batches_end (new_chunks : list document) :
  Forall (fun c => is_Some (metadata c !! "id")) new_chunks ->
  forall m a w,
    let res := process_batches call_succeeds new_chunks
                 (map (fun j => j * batch_size) (seq a m)) w in
    (res.2 = Returns tt \/ res.2 = Raises StoreError)
    /\ (0 < m -> List.length (attempt_log w) < List.length (attempt_log res.1)).
Proof.
  intros Hid. induction m as [|m IH]; intros a w; [simpl; split; [auto|lia]|].
  cbn [seq map process_batches].
  pose proof (process_batch_outcome call_succeeds new_chunks w a Hid) as Hb.
  destruct (process_batch call_succeeds new_chunks w (a * batch_size)) as [w1 r1].
  destruct Hb as (bs & Hlog & _ & [(Hbs & Hr & _)|(Hbs & Hr & _)]);
    cbn [fst snd] in Hlog, Hr; subst r1.
  - specialize (IH (S a) w1).
    pose proof (process_batches_outcome call_succeeds new_chunks Hid m (S a) w1) as Ho.
    destruct (process_batches call_succeeds new_chunks
                (map (fun j => j * batch_size) (seq (S a) m)) w1) as [w2 r2].
    destruct Ho as (L & _ & HL & _). cbn [fst snd] in *.
    destruct IH as [Hr _]. split; [exact Hr|]. intros _.
    rewrite HL, Hlog, !length_app, length_fmap.
    rewrite !elem_of_cons, elem_of_nil in Hbs.
    destruct Hbs as [->|[->|[->|[]]]]; simpl; lia.
  - cbn [fst snd]. split; [right; reflexivity|]. intros _.
    rewrite Hlog, Hbs, length_app. simpl. lia.
Qed.
End RunEnd.

(** X22: a run of [add_to_chroma] ends normally or with the exception
    of the store, never with a [KeyError] for a missing identifier; and
    [persist] is called exactly when it ends normally after at least one
    call to the store. *)
Theorem add_to_chroma_end (call_succeeds : nat -> bool) (chunks : list document)
  (reset : bool) (db : list (string * document)) :
  let res := add_to_chroma call_succeeds chunks reset db in
  (res.2 = Returns tt \/ res.2 = Raises StoreError)
  /\ (persisted res.1 = true <-> res.2 = Returns tt /\ attempt_log res.1 <> []).
Proof.
  intros res. subst res. unfold add_to_chroma. rewrite new_chunks_of.
  set (db' := if reset then reset_store db else db).
  set (new_chunks := filter _ (calculate_chunk_ids chunks)).
  assert (Hid : Forall (fun c => is_Some (metadata c !! "id")) new_chunks).
  { apply Forall_forall. intros c Hc.
    apply list_elem_of_filter in Hc as [_ Hc]. revert c Hc.
    apply Forall_forall, calculate_chunk_ids_have_id. }
  destruct new_chunks as [|c0 rest] eqn:Enew.
  - simpl. split; [auto|]. split; [discriminate|intros [_ H]; contradiction].
  - rewrite <- Enew in *. unfold range_step.
    set (m := (List.length new_chunks + batch_size - 1) / batch_size).
    assert (Hm : 0 < m).
    { subst m. unfold batch_size. rewrite Enew. simpl List.length.
      apply Nat.div_str_pos. lia. }
    pose proof (process_batches_end call_succeeds new_chunks Hid m 0
                  (mk_world db' [] false)) as [Hr Hlen].
    pose proof (process_batches_outcome call_succeeds new_chunks Hid m 0
                  (mk_world db' [] false)) as (L & _ & _ & Hper & _).
    destruct (process_batches call_succeeds new_chunks
                (map (fun j => j * batch_size) (seq 0 m)) (mk_world db' [] false))
      as [w r].
    cbn [fst snd attempt_log persisted] in *. specialize (Hlen Hm).
    destruct Hr as [-> | ->]; cbn [fst snd attempt_log persisted].
    + split; [auto|]. split; [|reflexivity]. intros _. split; [reflexivity|].
      intros E. rewrite E in Hlen. simpl in Hlen. lia.
    + split; [auto|]. rewrite Hper. split; [discriminate|intros [H _]; discriminate H].
Qed.

(** ** Identifiers assigned again *)

Lemma source_str_set_id (c : document) (x : string) :
  source_str (set_metadata c "id" x) = source_str c.
Proof.
  unfold source_str, set_metadata. simpl.
  rewrite lookup_insert_ne by discriminate. reflexivity.
Qed.

Lemma sequential_index_ext (l1 l2 : list document) :
  (forall i, source_str <$> l1 !! i = source_str <$> l2 !! i) ->
  forall i, sequential_index l1 i = sequential_index l2 i.
Proof.
  intros H. induction i as [|i IH]; simpl; [reflexivity|].
  rewrite !H, IH. reflexivity.
Qed.

Lemma sequential_index_calculate (chunks : list document) (i : nat) :
  sequential_index (calculate_chunk_ids chunks) i = sequential_index chunks i.
Proof.
  apply sequential_index_ext. intros k.
  rewrite calculate_chunk_ids_imap, list_lookup_imap.
  destruct (chunks !! k); simpl; [|reflexivity].
  rewrite source_str_set_id. reflexivity.
Qed.

(** X23: [calculate_chunk_ids] depends only on the sources: applied to
    its own result it changes nothing, so chunks that already carry an
    identifier, right or wrong, get the same identifiers again; and it
    keeps the number of chunks, their text and every other metadata
    entry. *)
Theorem calculate_chunk_ids_idempotent (chunks : list document) :
  calculate_chunk_ids (calculate_chunk_ids chunks) = calculate_chunk_ids chunks
  /\ List.length (calculate_chunk_ids chunks) = List.length chunks
  /\ (forall i c c', chunks !! i = Some c ->
                     calculate_chunk_ids chunks !! i = Some c' ->
                     page_content c' = page_content c
                     /\ forall k, k <> "id" -> metadata c' !! k = metadata c !! k).
Proof.
  split; [|split].
  - apply list_eq. intros i.
    rewrite (calculate_chunk_ids_imap (calculate_chunk_ids chunks)).
    rewrite list_lookup_imap. cbv beta. rewrite sequential_index_calculate.
    rewrite calculate_chunk_ids_imap, list_lookup_imap.
    destruct (chunks !! i) as [c|]; [|reflexivity]. cbn [fmap option_fmap option_map].
    f_equal. unfold chunk_id_of, current_source_of. rewrite source_str_set_id.
    unfold set_metadata. cbn [page_content metadata].
    rewrite insert_insert_eq. reflexivity.
  - rewrite calculate_chunk_ids_imap, length_imap. reflexivity.
  - intros i c c' Hc Hc'.
    rewrite calculate_chunk_ids_imap, list_lookup_imap, Hc in Hc'.
    injection Hc' as <-. split; [reflexivity|]. intros k Hk. simpl.
    apply lookup_insert_ne. congruence.
Qed.

(** ** Resetting the store *)

Lemma filter_all_forall {A : Type} (P : A -> Prop) `{!forall x, Decision (P x)}
  (l : list A) :
  Forall P l -> filter P l = l.
Proof.
  induction 1 as [|x l Hx _ IH]; [reflexivity|].
  rewrite filter_cons, decide_True by exact Hx. rewrite IH. reflexivity.
Qed.

Lemma code_ids_elem (st : list (string * document)) (x : string) :
  x ∈ map fst (filter (fun e => metadata e.2 !! "type" = Some "code") st)
  <-> exists e, e ∈ st /\ metadata e.2 !! "type" = Some "code" /\ e.1 = x.
Proof.
  change (map fst ?l) with (fst <$> l). rewrite list_elem_of_fmap. split.
  - intros (e & -> & He). apply list_elem_of_filter in He as [Ht He]. eauto.
  - intros (e & He & Ht & <-). exists e. split; [reflexivity|].
    apply list_elem_of_filter. auto.
Qed.

(** X24: after the reset no entry of type "code" is left in the store;
    an entry survives exactly when no entry of type "code" has its
    identifier, so an entry of another type that shares its identifier
    with a code entry is deleted with it; the order of the survivors is
    kept. *)
Theorem reset_store_spec (st : list (string * document)) :
  Forall (fun e => metadata e.2 !! "type" <> Some "code") (reset_store st)
  /\ reset_store st `sublist_of` st
  /\ (forall e, e ∈ reset_store st
                <-> e ∈ st
                    /\ forall e', e' ∈ st -> metadata e'.2 !! "type" = Some "code" ->
                                  e'.1 <> e.1).
Proof.
  assert (Hmem : forall e, e ∈ reset_store st
                           <-> e ∈ st
                               /\ forall e', e' ∈ st ->
                                             metadata e'.2 !! "type" = Some "code" ->
                                             e'.1 <> e.1).
  { intros e. unfold reset_store.
    destruct (map fst (filter (fun e => metadata e.2 !! "type" = Some "code") st))
      as [|x ids] eqn:E.
    - split; [|intros [H _]; exact H]. intros He. split; [exact He|].
      intros e' He' Ht Heq.
      assert (Hin : e.1 ∈ map fst (filter (fun e => metadata e.2 !! "type"
                                                    = Some "code") st))
        by (apply code_ids_elem; eauto).
      rewrite E in Hin. inversion Hin.
    - rewrite <- E. rewrite list_elem_of_filter. split.
      + intros [Hn He]. split; [exact He|]. intros e' He' Ht Heq.
        apply Hn. apply code_ids_elem. eauto.
      + intros [He Hn]. split; [|exact He]. intros Hin.
        apply code_ids_elem in Hin as (e' & He' & Ht & Heq). exact (Hn e' He' Ht Heq). }
  split; [|split; [|exact Hmem]].
  - apply Forall_forall. intros e He Ht. apply Hmem in He as [He Hn].
    exact (Hn e He Ht eq_refl).
  - unfold reset_store. destruct (map fst _); [reflexivity|apply sublist_filter].
Qed.

(** X25: a reset undoes an ingestion: if the store holds no entry of
    type "code", the chunks all have type "code" and the store accepts
    every call, then resetting the store that [add_to_chroma] leaves
    gives back the store as it was before. *)
Theorem reset_undoes_ingestion (call_succeeds : nat -> bool)
  (chunks : list document) (db : list (string * document)) :
  (forall k, call_succeeds k = true) ->
  Forall (fun e => metadata e.2 !! "type" <> Some "code") db ->
  Forall (fun c => metadata c !! "type" = Some "code") chunks ->
  reset_store (store (add_to_chroma call_succeeds chunks false db).1) = db.
Proof.
  intros Hall Hdb Hchunks.
  destruct (add_to_chroma_all_succeed_run call_succeeds chunks false db Hall)
    as (_ & Hstore & _).
  cbv zeta in Hstore. rewrite Hstore. clear Hstore.
  set (new_chunks := filter _ (calculate_chunk_ids chunks)).
  assert (Hprop : Forall (fun c => metadata c !! "type" = Some "code"
                                   /\ id_of c ∉ fst <$> db) new_chunks).
  { apply Forall_forall. intros c Hc.
    apply list_elem_of_filter in Hc as [Hn Hc].
    pose proof (calculate_chunk_ids_have_id chunks) as Hid.
    rewrite Forall_forall in Hid.
    apply (new_chunk_test _ c (Hid c Hc)) in Hn. split.
    - rewrite calculate_chunk_ids_imap in Hc.
      apply list_elem_of_lookup in Hc as [i Hi].
      rewrite list_lookup_imap in Hi.
      destruct (chunks !! i) as [c0|] eqn:E0; [|discriminate Hi].
      injection Hi as <-. simpl. rewrite lookup_insert_ne by discriminate.
      rewrite Forall_forall in Hchunks. apply Hchunks.
      apply list_elem_of_lookup. eauto.
    - intros Hin. apply Hn. apply elem_of_list_to_set. exact Hin. }
  clearbody new_chunks.
  assert (Hcode : filter (fun e => metadata e.2 !! "type" = Some "code")
                         (db ++ (stored <$> new_chunks))
                  = stored <$> new_chunks).
  { rewrite filter_app, filter_nil_forall by exact Hdb.
    apply filter_all_forall. apply Forall_fmap.
    eapply Forall_impl; [exact Hprop|]. intros c [Ht _]. exact Ht. }
  unfold reset_store. rewrite Hcode.
  destruct new_chunks as [|c0 rest]; [simpl; apply app_nil_r|].
  set (added := stored <$> c0 :: rest) in *.
  destruct (map fst added) as [|x ids] eqn:E; [discriminate E|]. rewrite <- E.
  rewrite filter_app.
  rewrite (filter_all_forall _ db), (filter_nil_forall _ added); [apply app_nil_r| |].
  - apply Forall_forall. intros e He Hn. apply Hn.
    change (map fst added) with (fst <$> added). apply list_elem_of_fmap. eauto.
  - apply Forall_forall. intros e He Hin.
    change (map fst added) with (fst <$> added) in Hin.
    apply list_elem_of_fmap in Hin as (e' & Heq & He').
    subst added. apply list_elem_of_fmap in He' as (c & -> & Hc).
    rewrite Forall_forall in Hprop. destruct (Hprop c Hc) as [_ Hn].
    apply Hn. apply list_elem_of_fmap. exists e. split; [|exact He].
    simpl in Heq. congruence.
Qed.

Lemma reset_undoes_ingestion_witness :
  reset_store (store (add_to_chroma (fun _ => true) three_chunks false []).1) = [].
Proof.
  apply (reset_undoes_ingestion (fun _ => true) three_chunks []).
  - reflexivity.
  - constructor.
  - unfold three_chunks. repeat constructor.
Defined.

(** ** Splitting at a separator *)

Lemma prefix_nil (s : string) : String.prefix EmptyString s = true.
Proof. destruct s; reflexivity. Qed.

Lemma prefix_append (s t : string) : String.prefix s (s +:+ t) = true.
Proof.
  induction s as [|c s IH]; [apply prefix_nil|].
  rewrite append_cons. simpl. destruct (ascii_dec c c); [exact IH|contradiction].
Qed.

Lemma prefix_other_head (a c : ascii) (sep s : string) :
  Ascii.eqb a c = false -> String.prefix (String a sep) (String c s) = false.
Proof.
  intros H. simpl. destruct (ascii_dec a c) as [->|]; [|reflexivity].
  rewrite Ascii.eqb_refl in H. discriminate H.
Qed.

Lemma split_aux_skip (sep u rest : string) :
  Py.split_aux sep (String.length u) (u +:+ rest) = Py.split_aux sep 0 rest.
Proof.
  induction u as [|c u IH]; [reflexivity|]. rewrite append_cons. simpl. exact IH.
Qed.

(** At an occurrence of the separator the segment ends and the scan
    resumes behind the separator. *)
Lemma split_aux_match (a : ascii) (sep rest : string) :
  Py.split_aux (String a sep) 0 (String a sep +:+ rest)
  = (EmptyString,
     let '(seg, r) := Py.split_aux (String a sep) 0 rest in seg :: r).
Proof.
  pose proof (prefix_append (String a sep) rest) as H.
  rewrite append_cons in *. cbn [Py.split_aux]. rewrite H.
  replace (String.length (String a sep) - 1) with (String.length sep)
    by (simpl; lia).
  rewrite split_aux_skip. reflexivity.
Qed.

(** Text without the first character of the separator belongs to the
    segment being read. *)
Lemma split_aux_free (a : ascii) (sep before s : string) :
  has_char a before = false ->
  Py.split_aux (String a sep) 0 (before +:+ s)
  = let '(seg, r) := Py.split_aux (String a sep) 0 s in (before +:+ seg, r).
Proof.
  induction before as [|c before IH]; intros H.
  - rewrite append_nil_l. destruct (Py.split_aux (String a sep) 0 s). reflexivity.
  - simpl in H. apply orb_false_iff in H as [Hc Hb].
    rewrite append_cons. cbn [Py.split_aux].
    rewrite (prefix_other_head a c sep _ Hc), (IH Hb).
    destruct (Py.split_aux (String a sep) 0 s). reflexivity.
Qed.

Lemma split_cons (a : ascii) (sep before rest : string) :
  has_char a before = false ->
  Py.split (before +:+ String a sep +:+ rest) (String a sep)
  = before :: Py.split rest (String a sep).
Proof.
  intros H. unfold Py.split. rewrite (split_aux_free a sep before _ H), split_aux_match.
  destruct (Py.split_aux (String a sep) 0 rest). f_equal.
  clear. induction before as [|c before IH]; [reflexivity|].
  rewrite append_cons, IH. reflexivity.
Qed.

Lemma contains_append (sep before rest : string) :
  Py.contains sep (before +:+ sep +:+ rest) = true.
Proof.
  induction before as [|c before IH].
  - rewrite append_nil_l. destruct (sep +:+ rest) eqn:E; cbn [Py.contains];
      rewrite <- E, prefix_append; reflexivity.
  - rewrite append_cons. cbn [Py.contains]. rewrite IH. apply orb_true_r.
Qed.

(** ** The evaluation format read back *)

Lemma bind_returns {A B : Type} (a : A) (k : A -> outcome B) :
  Returns a ≫= k = k a.
Proof. reflexivity. Qed.

Lemma second_segment (a : ascii) (sep before rest : string) :
  has_char a before = false ->
  Py.list_getitem (Py.split (before +:+ String a sep +:+ rest) (String a sep)) 1
  = Returns (Py.split_aux (String a sep) 0 rest).1.
Proof.
  intros H. rewrite (split_cons a sep before rest H). unfold Py.split, Py.list_getitem.
  destruct (Py.split_aux (String a sep) 0 rest). reflexivity.
Qed.

Lemma first_segment (s sep : string) :
  Py.list_getitem (Py.split s sep) 0 = Returns (Py.split_aux sep 0 s).1.
Proof.
  unfold Py.split, Py.list_getitem. destruct (Py.split_aux sep 0 s). reflexivity.
Qed.

Lemma answer_segment (answer after : string) :
  answer ∈ ["A"; "B"; "C"; "D"; "True"; "False"] ->
  (Py.split_aux "," 0
     (Py.split_aux answer_marker 0 (" [" +:+ answer +:+ "]," +:+ after)).1).1
  = " [" +:+ answer +:+ "]".
Proof.
  intros Ha. rewrite !elem_of_cons, elem_of_nil in Ha.
  destruct Ha as [->|[->|[->|[->|[->|[->|[]]]]]]];
    repeat (rewrite append_cons || rewrite append_nil_l);
    unfold answer_marker; simpl;
    destruct (Py.split_aux "Correct Answer:" 0 after) as [seg r]; simpl;
    destruct seg; reflexivity.
Qed.

Lemma extract_try_format (m : gmap nat string) (idx : nat)
  (before answer after : string) :
  has_char "C" before = false ->
  answer ∈ ["A"; "B"; "C"; "D"; "True"; "False"] ->
  extract_try m idx (before +:+ "Correct Answer: [" +:+ answer +:+ "]," +:+ after)
  = Returns (<[idx := Py.take 1 answer]> m).
Proof.
  intros Hb Ha. unfold extract_try.
  change ("Correct Answer: [" +:+ answer +:+ "]," +:+ after)
    with (answer_marker +:+ " [" +:+ answer +:+ "]," +:+ after).
  unfold answer_marker at 1 2.
  rewrite (second_segment "C" "orrect Answer:" before _ Hb), bind_returns.
  rewrite first_segment, bind_returns.
  change "Correct Answer:" with answer_marker. rewrite (answer_segment _ _ Ha).
  rewrite !elem_of_cons, elem_of_nil in Ha.
  destruct Ha as [->|[->|[->|[->|[->|[->|[]]]]]]]; reflexivity.
Qed.

Lemma extract_step_readable (m : gmap nat string) (idx : nat)
  (e : string * string * string) :
  readable_line e ->
  extract_step m (idx, evaluation_line e) = <[idx := Py.take 1 e.1.2]> m.
Proof.
  destruct e as [[before answer] after]. intros (Hb & Ha & _).
  unfold extract_step, evaluation_line.
  rewrite (extract_try_format m idx before answer after Hb Ha).
  change ("Correct Answer: [" +:+ answer +:+ "]," +:+ after)
    with (answer_marker +:+ " [" +:+ answer +:+ "]," +:+ after).
  rewrite contains_append. reflexivity.
Qed.

(** X26: a line laid out as the evaluation prompt asks, with the answer
    in brackets after "Correct Answer:" and a comma behind it, is read
    back: the extraction records the first character of the answer at
    the index of the line, whatever follows the comma. *)
Theorem extraction_reads_line (m : gmap nat string) (idx : nat)
  (before answer after : string) :
  has_char "C" before = false ->
  answer ∈ ["A"; "B"; "C"; "D"; "True"; "False"] ->
  extract_step m (idx, evaluation_line (before, answer, after))
  = <[idx := Py.take 1 answer]> m.
Proof.
  intros Hb Ha. unfold extract_step, evaluation_line.
  rewrite (extract_try_format m idx before answer after Hb Ha).
  change ("Correct Answer: [" +:+ answer +:+ "]," +:+ after)
    with (answer_marker +:+ " [" +:+ answer +:+ "]," +:+ after).
  rewrite contains_append. reflexivity.
Qed.

Lemma extraction_reads_line_witness :
  extract_step ∅ (4, "Question 5: Correct Answer: [True], Explanation: Correct Answer: [B], x")
  = {[ 4 := "T" ]}.
Proof.
  exact (extraction_reads_line ∅ 4 "Question 5: " "True"
           " Explanation: Correct Answer: [B], x" eq_refl
           ltac:(repeat first [left | right])).
Defined.

Lemma split_no_sep (a : ascii) (sep s : string) :
  has_char a s = false -> Py.split s (String a sep) = [s].
Proof.
  intros H. unfold Py.split.
  pose proof (split_aux_free a sep s EmptyString H) as E. simpl in E.
  assert (Hs : s +:+ EmptyString = s).
  { clear. induction s as [|c s IH]; [reflexivity|]. rewrite append_cons, IH.
    reflexivity. }
  rewrite Hs in E. rewrite E. reflexivity.
Qed.

(** Lines without a line break, joined and split again. *)
Lemma split_lines_of (ls : list string) :
  ls <> [] ->
  Forall (fun l => has_char newline_char l = false) ls ->
  Py.split (lines_of ls) newline = ls.
Proof.
  intros Hne H. induction H as [|l ls Hl Hls IH]; [contradiction|].
  destruct ls as [|l' ls].
  - simpl. apply (split_no_sep newline_char EmptyString l Hl).
  - change (lines_of (l :: l' :: ls)) with (l +:+ newline +:+ lines_of (l' :: ls)).
    unfold newline at 1 2. fold newline_char.
    rewrite (split_cons newline_char EmptyString l _ Hl).
    f_equal. apply IH. discriminate.
Qed.

Lemma evaluation_line_no_newline (e : string * string * string) :
  readable_line e -> has_char newline_char (evaluation_line e) = false.
Proof.
  destruct e as [[before answer] after]. intros (_ & Ha & Hb & Hc).
  unfold evaluation_line. rewrite !has_char_append, Hb, Hc.
  rewrite !elem_of_cons, elem_of_nil in Ha.
  destruct Ha as [->|[->|[->|[->|[->|[->|[]]]]]]]; reflexivity.
Qed.

Lemma extract_fold_format (entries : list (string * string * string)) :
  Forall readable_line entries ->
  forall start m i,
    fold_left extract_step
      (combine (seq start (List.length entries)) (evaluation_line <$> entries)) m !! i
    = if decide (start <= i < start + List.length entries)
      then (fun e => Py.take 1 e.1.2) <$> entries !! (i - start)
      else m !! i.
Proof.
  induction 1 as [|e entries He _ IH]; intros start m i.
  - simpl. rewrite decide_False by lia. reflexivity.
  - cbn [List.length seq fmap list_fmap combine fold_left].
    rewrite (extract_step_readable m start e He).
    change (list_fmap _ _ evaluation_line entries) with (evaluation_line <$> entries).
    rewrite IH.
    destruct (decide (S start <= i < S start + List.length entries)) as [Hin|Hout].
    + rewrite decide_True by lia.
      replace (i - start) with (S (i - S start)) by lia. reflexivity.
    + destruct (decide (i = start)) as [->|Hne].
      * rewrite decide_True by lia. rewrite Nat.sub_diag, lookup_insert_eq. reflexivity.
      * rewrite decide_False by lia. apply lookup_insert_ne. congruence.
Qed.

Lemma evaluation_lines_split (entries : list (string * string * string)) :
  entries <> [] -> Forall readable_line entries ->
  Py.split (lines_of (evaluation_line <$> entries)) newline = evaluation_line <$> entries.
Proof.
  intros Hne H. apply split_lines_of.
  - destruct entries; [contradiction|discriminate].
  - apply Forall_fmap. eapply Forall_impl; [exact H|].
    intros e1. apply evaluation_line_no_newline.
Qed.

Lemma extract_lines_format (entries : list (string * string * string)) (i : nat) :
  Forall readable_line entries ->
  fold_left extract_step (enumerate (evaluation_line <$> entries)) ∅ !! i
  = (fun e => Py.take 1 e.1.2) <$> entries !! i.
Proof.
  intros H. unfold enumerate.
  rewrite length_fmap, (extract_fold_format entries H 0 ∅ i).
  rewrite Nat.sub_0_r. destruct (decide (0 <= i < 0 + List.length entries));
    [reflexivity|].
  rewrite lookup_empty, lookup_ge_None_2 by lia. reflexivity.
Qed.

(** X27: an evaluation text made of lines in that layout, one per
    question and nothing else, is read back whole: the extraction maps
    each position to the first character of the answer asserted on that
    line, and holds nothing else. *)
Theorem extraction_reads_evaluation (entries : list (string * string * string))
  (i : nat) :
  Forall readable_line entries ->
  extract_correct_answers (lines_of (evaluation_line <$> entries)) !! i
  = (fun e => Py.take 1 e.1.2) <$> entries !! i.
Proof.
  intros H. unfold extract_correct_answers.
  destruct entries as [|e0 rest] eqn:E; [vm_compute; reflexivity|].
  rewrite <- E in *.
  rewrite evaluation_lines_split;
    [apply extract_lines_format, H|rewrite E; discriminate|exact H].
Qed.

Lemma extraction_reads_evaluation_witness :
  extract_correct_answers
    (lines_of (evaluation_line <$> [("Question 1: ", "B", " Explanation: x");
                                    ("Question 2: ", "False", " Explanation: y")]))
  !! 1 = Some "F".
Proof.
  apply (extraction_reads_evaluation
           [("Question 1: ", "B", " Explanation: x");
            ("Question 2: ", "False", " Explanation: y")] 1).
  repeat constructor.
Defined.

(** ** The quiz layout read back *)

Lemma append_assoc (a b c : string) : (a +:+ b) +:+ c = a +:+ b +:+ c.
Proof.
  induction a as [|x a IH]; [reflexivity|]. rewrite !append_cons, IH. reflexivity.
Qed.

Lemma truthy_append_r (a b : string) : Py.truthy b = true -> Py.truthy (a +:+ b) = true.
Proof. destruct a; [rewrite append_nil_l; auto|reflexivity]. Qed.

Lemma rstrip_append (a b : string) :
  Py.truthy b = true -> Py.rstrip b = b -> Py.rstrip (a +:+ b) = a +:+ b.
Proof.
  intros Ht Hb. induction a as [|c a IH]; [rewrite append_nil_l; exact Hb|].
  rewrite append_cons. cbn [Py.rstrip]. rewrite IH, (truthy_append_r a b Ht).
  rewrite andb_false_r. reflexivity.
Qed.

Lemma plain_lstrip (t : string) : Py.strip t = t -> Py.lstrip t = t.
Proof.
  intros H. rewrite <- H at 1. unfold Py.strip. rewrite lstrip_idem. exact H.
Qed.

Lemma plain_rstrip (t : string) : Py.strip t = t -> Py.rstrip t = t.
Proof.
  intros H. rewrite <- H at 1. unfold Py.strip.
  rewrite rstrip_lstrip, rstrip_idem. exact H.
Qed.

(** A line that starts with a character that is no whitespace and ends
    with a plain text has nothing to strip. *)
Lemma strip_line (c : ascii) (a t : string) :
  Py.isspace c = false -> plain_text t ->
  Py.strip (String c a +:+ t) = String c a +:+ t.
Proof.
  intros Hc (Ht & Hs & _). unfold Py.strip.
  rewrite (rstrip_append _ t Ht (plain_rstrip t Hs)).
  rewrite append_cons. cbn [Py.lstrip]. rewrite Hc. reflexivity.
Qed.

Lemma strip_space_plain (t : string) :
  plain_text t -> Py.strip (String " " t) = t.
Proof.
  intros (Ht & Hs & _). unfold Py.strip.
  change (String " " t) with (" " +:+ t).
  rewrite (rstrip_append _ t Ht (plain_rstrip t Hs)).
  change (" " +:+ t) with (String " " t). cbn [Py.lstrip].
  change (Py.isspace " ") with true. cbv iota. apply plain_lstrip, Hs.
Qed.

Lemma split1_last_free (a : ascii) (before rest : string) :
  has_char a before = false ->
  Py.split1_last (before +:+ String a EmptyString +:+ rest) (String a EmptyString)
  = rest.
Proof.
  intros H. unfold Py.split1_last.
  assert (E : Py.split1_last_aux (String a EmptyString)
                (before +:+ String a EmptyString +:+ rest) = Some rest).
  { induction before as [|c before IH].
    - rewrite append_nil_l, append_cons, append_nil_l. cbn [Py.split1_last_aux].
      pose proof (prefix_append (String a EmptyString) rest) as Hp.
      rewrite append_cons, append_nil_l in Hp. rewrite Hp. reflexivity.
    - simpl in H. apply orb_false_iff in H as [Hc Hb].
      rewrite append_cons. cbn [Py.split1_last_aux].
      rewrite (prefix_other_head a c EmptyString _ Hc). exact (IH Hb). }
  rewrite E. reflexivity.
Qed.

Lemma str_of_nat_no_char (c : ascii) (n : nat) :
  Py.isdigit c = false -> has_char c (str_of_nat n) = false.
Proof.
  intros H. unfold str_of_nat. induction (Nat.to_uint n) as [|d IH|d IH|d IH|d IH|d IH
                                                             |d IH|d IH|d IH|d IH|d IH];
    cbn [NilEmpty.string_of_uint has_char]; [reflexivity|..];
    rewrite IH, orb_false_r; apply Ascii.eqb_neq; intros ->; discriminate H.
Qed.

Lemma question_head_assoc (k : nat) (text : string) :
  question_head k text
  = ("Question " +:+ str_of_nat k) +:+ ":" +:+ String " " text.
Proof. unfold question_head. rewrite append_assoc. reflexivity. Qed.

Lemma question_head_strip (k : nat) (text : string) :
  plain_text text -> Py.strip (question_head k text) = question_head k text.
Proof.
  intros H. unfold question_head.
  rewrite <- (append_assoc (str_of_nat k)), <- (append_assoc "Question ").
  exact (strip_line "Q" (("uestion " +:+ str_of_nat k) +:+ ": ") text eq_refl H).
Qed.

Lemma question_head_text (k : nat) (text : string) :
  plain_text text -> question_text_of (question_head k text) = text.
Proof.
  intros H. unfold question_text_of. rewrite question_head_assoc.
  rewrite contains_append.
  rewrite split1_last_free.
  - apply strip_space_plain, H.
  - rewrite has_char_append, str_of_nat_no_char by reflexivity. reflexivity.
Qed.

Lemma question_head_is_question (k : nat) (text : string) :
  is_question_line (question_head k text) = Returns true.
Proof.
  unfold is_question_line, question_head, Py.startswith.
  change ("Question " +:+ str_of_nat k +:+ ": " +:+ text)
    with ("Question" +:+ " " +:+ str_of_nat k +:+ ": " +:+ text).
  rewrite prefix_append. reflexivity.
Qed.

Lemma question_head_truthy (k : nat) (text : string) :
  Py.truthy (question_head k text) = true.
Proof. reflexivity. Qed.

(** The head line of a block closes the question before it and opens
    the next one. *)
Lemma mcq_step_head (questions : list question_rec) (cur : option question_rec)
  (k : nat) (text : string) :
  plain_text text ->
  mcq_step (questions, cur) (question_head k text)
  = Returns (questions ++ closed_question cur, Some (mk_question text [])).
Proof.
  intros H. unfold mcq_step.
  rewrite (question_head_strip k text H), question_head_truthy,
    question_head_is_question, (question_head_text k text H).
  destruct cur; simpl; rewrite ?app_nil_r; reflexivity.
Qed.

Lemma option_line_strip (o : string * string) :
  o.1 ∈ ["A"; "B"; "C"; "D"] -> plain_text o.2 ->
  Py.strip (option_line o) = option_line o.
Proof.
  destruct o as [l t]. simpl. intros Hl Ht. unfold option_line. simpl.
  rewrite !elem_of_cons, elem_of_nil in Hl.
  destruct Hl as [->|[->|[->|[->|[]]]]];
    rewrite <- append_assoc;
    [exact (strip_line "A" ") " t eq_refl Ht)|exact (strip_line "B" ") " t eq_refl Ht)
    |exact (strip_line "C" ") " t eq_refl Ht)|exact (strip_line "D" ") " t eq_refl Ht)].
Qed.

(** An option line adds its option to the open question. *)
Lemma mcq_step_option (questions : list question_rec) (q : question_rec)
  (o : string * string) :
  o.1 ∈ ["A"; "B"; "C"; "D"] -> plain_text o.2 ->
  mcq_step (questions, Some q) (option_line o)
  = Returns (questions, Some (mk_question (question q) (options q ++ [o]))).
Proof.
  intros Hl Ht. unfold mcq_step. rewrite (option_line_strip o Hl Ht).
  destruct o as [l t]. simpl in Hl, Ht. unfold option_line. cbn [fst snd].
  pose proof (strip_space_plain t Ht) as Hs.
  rewrite !elem_of_cons, elem_of_nil in Hl.
  destruct Hl as [->|[->|[->|[->|[]]]]];
    repeat rewrite append_cons; rewrite !append_nil_l;
    cbn -[Py.strip]; rewrite Hs; reflexivity.
Qed.

Lemma for_each_app {A S : Type} (body : S -> A -> outcome S) (xs ys : list A) (st : S) :
  for_each body (xs ++ ys) st = for_each body xs st ≫= for_each body ys.
Proof.
  revert st. induction xs as [|x xs IH]; intros st; [reflexivity|].
  cbn [app for_each]. destruct (body st x) as [st'|e]; [|reflexivity].
  rewrite !bind_returns. apply IH.
Qed.

Lemma mcq_options_fold (questions : list question_rec) (text : string)
  (opts : list (string * string)) :
  Forall (fun o => o.1 ∈ ["A"; "B"; "C"; "D"] /\ plain_text o.2) opts ->
  forall acc,
    for_each mcq_step (option_line <$> opts) (questions, Some (mk_question text acc))
    = Returns (questions, Some (mk_question text (acc ++ opts))).
Proof.
  induction 1 as [|o opts [Hl Ht] _ IH]; intros acc.
  - simpl. rewrite app_nil_r. reflexivity.
  - cbn [fmap list_fmap]. rewrite for_each_cons.
    rewrite (mcq_step_option questions (mk_question text acc) o Hl Ht), bind_returns.
    cbn [question options].
    change (list_fmap _ _ option_line opts) with (option_line <$> opts).
    rewrite IH, <- app_assoc. reflexivity.
Qed.

Lemma mcq_block (questions : list question_rec) (cur : option question_rec)
  (k : nat) (q : question_rec) :
  plain_mcq q ->
  for_each mcq_step (mcq_lines k q) (questions, cur)
  = Returns (questions ++ closed_question cur, Some q).
Proof.
  intros (Ht & _ & Ho). unfold mcq_lines. rewrite for_each_cons.
  rewrite (mcq_step_head questions cur k _ Ht), bind_returns.
  rewrite (mcq_options_fold _ _ _ Ho). destruct q. reflexivity.
Qed.

Lemma mcq_blocks (qs : list question_rec) :
  Forall plain_mcq qs ->
  forall k st,
    for_each mcq_step (quiz_lines_from k qs) st = Returns (after_blocks st qs).
Proof.
  induction 1 as [|q qs Hq _ IH]; intros k [questions cur]; [reflexivity|].
  cbn [quiz_lines_from after_blocks]. rewrite for_each_app.
  rewrite (mcq_block questions cur k q Hq), bind_returns. apply IH.
Qed.

Lemma after_blocks_all (qs : list question_rec) :
  forall st, (after_blocks st qs).1 ++ closed_question (after_blocks st qs).2
             = st.1 ++ closed_question st.2 ++ qs.
Proof.
  induction qs as [|q qs IH]; intros [questions cur]; simpl.
  - rewrite app_nil_r. reflexivity.
  - rewrite IH. simpl. rewrite <- app_assoc. reflexivity.
Qed.

Lemma after_blocks_open (qs : list question_rec) :
  Forall plain_mcq qs ->
  forall st, (forall q, st.2 = Some q -> options q <> []) ->
             forall q, (after_blocks st qs).2 = Some q -> options q <> [].
Proof.
  induction 1 as [|q0 qs Hq _ IH]; intros st Hst; [exact Hst|].
  simpl. apply IH. simpl. intros q E. injection E as <-. apply Hq.
Qed.

Lemma length_lstrip (s : string) : String.length (Py.lstrip s) <= String.length s.
Proof.
  induction s as [|c s IH]; simpl; [lia|].
  destruct (Py.isspace c); simpl; lia.
Qed.

Lemma lstrip_append (l r : string) :
  Py.truthy l = true -> Py.lstrip l = l -> Py.lstrip (l +:+ r) = l +:+ r.
Proof.
  destruct l as [|c l]; [discriminate|]. intros _ H.
  rewrite append_cons. simpl in *.
  destruct (Py.isspace c); [|reflexivity].
  pose proof (length_lstrip l) as Hlen. rewrite H in Hlen. simpl in Hlen. lia.
Qed.

Lemma question_head_plain (k : nat) (text : string) :
  plain_text text -> plain_text (question_head k text).
Proof.
  intros H. split; [reflexivity|]. split; [apply question_head_strip, H|].
  destruct H as (_ & _ & Hn). unfold question_head.
  rewrite !has_char_append, Hn, str_of_nat_no_char by reflexivity. reflexivity.
Qed.

Lemma option_line_plain (o : string * string) :
  o.1 ∈ ["A"; "B"; "C"; "D"] -> plain_text o.2 -> plain_text (option_line o).
Proof.
  intros Hl Ht. split; [|split; [apply option_line_strip; assumption|]].
  - unfold option_line. apply truthy_append_r, truthy_append_r, Ht.
  - destruct Ht as (_ & _ & Hn). destruct o as [l t]. unfold option_line. simpl in *.
    rewrite !has_char_append, Hn.
    rewrite !elem_of_cons, elem_of_nil in Hl.
    destruct Hl as [->|[->|[->|[->|[]]]]]; reflexivity.
Qed.

Lemma quiz_lines_plain (qs : list question_rec) :
  Forall plain_mcq qs -> forall k, Forall plain_text (quiz_lines_from k qs).
Proof.
  induction 1 as [|q qs (Ht & _ & Ho) _ IH]; intros k; [constructor|].
  cbn [quiz_lines_from]. apply Forall_app. split; [|apply IH].
  unfold mcq_lines. constructor; [apply question_head_plain, Ht|].
  apply Forall_fmap. eapply Forall_impl; [exact Ho|].
  intros o [Hl Hp]. apply option_line_plain; assumption.
Qed.

Lemma lines_of_cons (l l' : string) (ls : list string) :
  lines_of (l :: l' :: ls) = l +:+ newline +:+ lines_of (l' :: ls).
Proof. reflexivity. Qed.

Lemma lines_of_rstrip (ls : list string) :
  forall l, Forall plain_text (l :: ls) ->
            Py.rstrip (lines_of (l :: ls)) = lines_of (l :: ls)
            /\ Py.truthy (lines_of (l :: ls)) = true.
Proof.
  induction ls as [|l' ls IH]; intros l H.
  - apply Forall_inv in H as (Ht & Hs & _). split; [apply plain_rstrip, Hs|exact Ht].
  - rewrite lines_of_cons. apply Forall_cons in H as [_ H].
    destruct (IH l' H) as [Hr Ht].
    assert (Hn : Py.rstrip (newline +:+ lines_of (l' :: ls))
                 = newline +:+ lines_of (l' :: ls))
      by (apply rstrip_append; assumption).
    split; [apply rstrip_append; [reflexivity|exact Hn]|].
    apply truthy_append_r. reflexivity.
Qed.

(** Plain lines joined into a text: the text has nothing to strip, and
    splitting it gives the lines back. *)
Lemma lines_of_plain (ls : list string) :
  ls <> [] -> Forall plain_text ls ->
  Py.strip (lines_of ls) = lines_of ls /\ Py.split (lines_of ls) newline = ls.
Proof.
  intros Hne H. split.
  - destruct ls as [|l ls]; [contradiction|].
    unfold Py.strip. rewrite (proj1 (lines_of_rstrip ls l H)).
    apply Forall_cons in H as [(Ht & Hs & _) _].
    destruct ls as [|l' ls]; [apply plain_lstrip, Hs|].
    rewrite lines_of_cons. apply lstrip_append; [exact Ht|apply plain_lstrip, Hs].
  - apply split_lines_of; [exact Hne|].
    eapply Forall_impl; [exact H|]. intros l (_ & _ & Hn). exact Hn.
Qed.

(** X28: a multiple-choice quiz laid out as the generation prompt asks
    is read back exactly: for questions with plain texts and at least
    one option each, parsing the layout gives the questions, with their
    options in order. *)
Theorem parse_mcq_reads_layout (qs : list question_rec) :
  Forall plain_mcq qs -> parse_mcq_questions (render_mcq qs) = Returns qs.
Proof.
  intros H. destruct qs as [|q0 rest] eqn:E; [vm_compute; reflexivity|].
  rewrite <- E in *. unfold parse_mcq_questions, render_mcq.
  assert (Hne : quiz_lines_from 1 qs <> []) by (rewrite E; discriminate).
  destruct (lines_of_plain _ Hne (quiz_lines_plain qs H 1)) as [Hs Hl].
  rewrite Hs, Hl, (mcq_blocks qs H), bind_returns.
  pose proof (after_blocks_all qs ([], None)) as Hall.
  pose proof (after_blocks_open qs H ([], None)) as Hopen.
  destruct (after_blocks ([], None) qs) as [done cur]. simpl in Hall, Hopen.
  destruct cur as [q|]; simpl in Hall.
  - assert (Ho : options q <> []) by (apply Hopen; [discriminate|reflexivity]).
    destruct (options q) as [|o os] eqn:Eo; [contradiction|].
    simpl. rewrite Hall. reflexivity.
  - rewrite app_nil_r in Hall. rewrite Hall. reflexivity.
Qed.

Lemma parse_mcq_reads_layout_witness :
  parse_mcq_questions
    (render_mcq [mk_question "What is RSA?" [("A", "Cipher"); ("B", "Hash")];
                 mk_question "2 + 2: which?" [("D", "4.")]])
  = Returns [mk_question "What is RSA?" [("A", "Cipher"); ("B", "Hash")];
             mk_question "2 + 2: which?" [("D", "4.")]].
Proof.
  apply parse_mcq_reads_layout.
  repeat first [constructor | discriminate | reflexivity | left | right; left
               | right; right; left | right; right; right; left].
Defined.

Lemma getitem_0_take (t : string) :
  Py.truthy t = true -> Py.getitem t 0 = Returns (Py.take 1 t).
Proof. destruct t as [|c t]; [discriminate|]. destruct t; reflexivity. Qed.

Lemma tf_step_head (questions : list question_rec) (k : nat) (text : string) :
  plain_text text -> Py.str_isdigit (Py.take 1 text) = false ->
  tf_step questions (question_head k text)
  = Returns (questions ++ [mk_question text tf_options]).
Proof.
  intros H Hd. unfold tf_step.
  rewrite (question_head_strip k text H), question_head_truthy,
    question_head_is_question, bind_returns, (question_head_text k text H).
  rewrite (getitem_0_take text (proj1 H)), bind_returns, Hd. reflexivity.
Qed.

Lemma tf_lines_plain (texts : list string) :
  Forall plain_text texts -> forall k, Forall plain_text (tf_lines_from k texts).
Proof.
  induction 1 as [|t texts Ht _ IH]; intros k; [constructor|].
  cbn [tf_lines_from]. constructor; [apply question_head_plain, Ht|apply IH].
Qed.

Lemma tf_lines_fold (texts : list string) :
  Forall (fun t => plain_text t /\ Py.str_isdigit (Py.take 1 t) = false) texts ->
  forall k acc,
    for_each tf_step (tf_lines_from k texts) acc
    = Returns (acc ++ ((fun t => mk_question t tf_options) <$> texts)).
Proof.
  induction 1 as [|t texts [Ht Hd] _ IH]; intros k acc.
  - simpl. rewrite app_nil_r. reflexivity.
  - cbn [tf_lines_from]. rewrite for_each_cons.
    rewrite (tf_step_head acc k t Ht Hd), bind_returns, IH.
    rewrite <- app_assoc. reflexivity.
Qed.

(** X29: a true/false quiz laid out as the generation prompt asks is
    read back exactly: for plain statements that do not start with a
    digit, parsing the layout gives one question per statement, with the
    statement as its text and the options True and False. *)
Theorem parse_tf_reads_layout (texts : list string) :
  Forall (fun t => plain_text t /\ Py.str_isdigit (Py.take 1 t) = false) texts ->
  parse_tf_questions (render_tf texts)
  = Returns ((fun t => mk_question t tf_options) <$> texts).
Proof.
  intros H. destruct texts as [|t0 rest] eqn:E; [vm_compute; reflexivity|].
  rewrite <- E in *. unfold parse_tf_questions, render_tf.
  assert (Hne : tf_lines_from 1 texts <> []) by (rewrite E; discriminate).
  assert (Hp : Forall plain_text texts).
  { eapply Forall_impl; [exact H|]. intros t [Ht _]. exact Ht. }
  destruct (lines_of_plain _ Hne (tf_lines_plain texts Hp 1)) as [Hs Hl].
  rewrite Hs, Hl. apply (tf_lines_fold texts H 1 []).
Qed.

Lemma parse_tf_reads_layout_witness :
  parse_tf_questions (render_tf ["TLS 1.3 uses symmetric keys."; "RSA is a hash"])
  = Returns [mk_question "TLS 1.3 uses symmetric keys." tf_options;
             mk_question "RSA is a hash" tf_options].
Proof.
  apply (parse_tf_reads_layout ["TLS 1.3 uses symmetric keys."; "RSA is a hash"]).
  repeat first [constructor | reflexivity].
Defined.

(** ** A quiz answered as the evaluation asserts *)

(** X30: for a multiple-choice quiz whose evaluation has one line per
    question in the layout of the prompt, a user who chose, for every
    question, the letter that the evaluation asserts is counted correct
    on every question, and scores 100 percent. *)
Theorem full_marks (qs : list question_rec) (entries : list (string * string * string))
  (user_answers : gmap nat string) :
  Forall readable_line entries ->
  Forall (fun e => e.1.2 ∈ ["A"; "B"; "C"; "D"]) entries ->
  List.length entries = List.length qs ->
  (forall i, user_answers !! i = (fun e => e.1.2) <$> entries !! i) ->
  let r := quiz_results qs user_answers
             (extract_correct_answers (lines_of (evaluation_line <$> entries))) in
  correct r = List.length qs
  /\ (qs <> [] -> (percentage r == 100)%Q).
Proof.
  intros Hread Hletters Hlen Hua r.
  assert (Hc : correct r = List.length qs).
  { subst r. unfold quiz_results, enumerate. cbn [correct].
    rewrite results_fold, Nat.add_0_l.
    rewrite filter_all_forall; [apply length_seq|].
    apply Forall_forall. intros i Hi. apply list_elem_of_In, in_seq in Hi.
    unfold is_correct, user_answer_at, correct_answer_at.
    unfold extract_correct_answers.
    rewrite evaluation_lines_split, (extract_lines_format entries i Hread), Hua;
      [|intros ->; simpl in Hlen; lia|exact Hread].
    destruct (entries !! i) as [[[before answer] after]|] eqn:E.
    - simpl. rewrite Forall_forall in Hletters.
      assert (Ha : answer ∈ ["A"; "B"; "C"; "D"]).
      { apply (Hletters (before, answer, after)). apply list_elem_of_lookup. eauto. }
      rewrite !elem_of_cons, elem_of_nil in Ha.
      destruct Ha as [->|[->|[->|[->|[]]]]]; reflexivity.
    - apply lookup_ge_None in E. lia. }
  split; [exact Hc|]. intros Hne.
  subst r. unfold quiz_results in *. cbn [correct percentage] in *. rewrite Hc.
  destruct (List.length qs) as [|n] eqn:En.
  - destruct qs; [contradiction|discriminate En].
  - cbn [Nat.ltb Nat.leb].
    replace (S n) with (Pos.to_nat (Pos.of_nat (S n))) at 1 by lia.
    rewrite int_truediv_same. reflexivity.
Qed.

Lemma full_marks_witness :
  let entries := [("Question 1: ", "B", " Explanation: x");
                  ("Question 2: ", "A", " Explanation: y")] in
  correct (quiz_results [mk_question "q1" []; mk_question "q2" []]
             {[ 0 := "B"; 1 := "A" ]}
             (extract_correct_answers (lines_of (evaluation_line <$> entries))))
  = 2.
Proof.
  refine (proj1 (full_marks [mk_question "q1" []; mk_question "q2" []]
                   [("Question 1: ", "B", " Explanation: x");
                    ("Question 2: ", "A", " Explanation: y")]
                   {[ 0 := "B"; 1 := "A" ]} _ _ eq_refl _)).
  - repeat constructor.
  - repeat constructor; simpl; repeat first [left | right].
  - intros [|[|i]]; [reflexivity|reflexivity|].
    rewrite lookup_insert_ne by lia. rewrite lookup_singleton_ne by lia. reflexivity.
Defined.
